(** * Security-header scanner: catalog, scoring, grading, aggregation

    A shallow embedding of the scanner component: the check catalog
    [CHECKS], the header lookup [findHeader], [gradeFromScore], the
    [results] computation of [Scanner] and the display path of the
    Markdown branch of [exportResults]; then the view ([filtered],
    [toggleSort], [toggleExpand]), the summary figures ([avgScore],
    [gradeBreakdown]) and the CSV branch of [exportResults].

    Conventions of the embedding.
    - A JavaScript string is a [string]: a sequence of code units, each an
      [ascii] read as a code unit in U+0000..U+00FF (what an HTTP header
      name or value decodes to).  Message literals are written as in the
      source; no operation of the program inspects a message.
    - A JavaScript number that holds an integer is a [Z]; the one place
      where the program leaves the integers, the quotient of the weighted
      score, is computed on binary64 floats ([PrimFloat]).
    - [undefined] for a [string | undefined] is [None].
    - An object used as a map is the list of its entries in the order
      [Object.entries] enumerates them. *)

From Stdlib Require Import ZArith NArith List Bool Ascii String Lia.
From Stdlib Require Import DecimalString DecimalPos Permutation Sorted.
From Stdlib Require Import Uint63 Floats.PrimFloat Floats.FloatOps Floats.SpecFloat.
Import ListNotations.

Open Scope string_scope.
Open Scope Z_scope.

(* ================================================================== *)
(** ** The built-ins the component calls *)

Module JS.

(** [String.prototype.toLowerCase] on one code unit of U+0000..U+00FF:
    A-Z and the upper-case letters of U+00C0..U+00DE (U+00D7, the
    multiplication sign, is not a letter) move up by 32; every other unit
    is its own lower case. *)
Definition lowerUnit (c : ascii) : ascii :=
  let n := N_of_ascii c in
  if ((65 <=? n) && (n <=? 90) ||
      (192 <=? n) && (n <=? 222) && negb (n =? 215))%N
  then ascii_of_N (n + 32)
  else c.

Fixpoint toLowerCase (s : string) : string :=
  match s with
  | EmptyString => EmptyString
  | String c s' => String (lowerUnit c) (toLowerCase s')
  end.

(** [a === b] on two strings. *)
Definition strictEq (a b : string) : bool := String.eqb a b.

(** [s.includes(sub)]: [sub] occurs at some position of [s]. *)
Fixpoint includes (s sub : string) : bool :=
  if String.prefix sub s then true
  else match s with
       | EmptyString => false
       | String _ s' => includes s' sub
       end.

(** [s.slice(0, n)] for a non-negative [n]. *)
Definition slice0 (s : string) (n : nat) : string := String.substring 0 n s.

(** A value of type [string | undefined] in a condition: [undefined] and
    the empty string are falsy, every other string is truthy. *)
Definition truthy (v : option string) : bool :=
  match v with
  | Some (String _ _) => true
  | _ => false
  end.

(** [a || b] on [string | undefined]. *)
Definition orElse (a b : option string) : option string :=
  if truthy a then a else b.

(** [\d] of a regular expression without the [u] flag: 0-9. *)
Definition isDigit (c : ascii) : bool :=
  let n := N_of_ascii c in ((48 <=? n) && (n <=? 57))%N.

(** The longest run of digits a string starts with: what a greedy [\d+]
    consumes when nothing follows it in the pattern. *)
Fixpoint takeDigits (s : string) : string :=
  match s with
  | String c s' => if isDigit c then String c (takeDigits s') else EmptyString
  | EmptyString => EmptyString
  end.

Fixpoint dropUnits (n : nat) (s : string) : string :=
  match n, s with
  | S n', String _ s' => dropUnits n' s'
  | _, _ => s
  end.

(** [/max-age=(\d+)/] tried at the first position of [s]: the capture
    group when the literal and at least one digit are there. *)
Definition matchMaxAgeHere (s : string) : option string :=
  if String.prefix "max-age=" s then
    match takeDigits (dropUnits 8 s) with
    | EmptyString => None
    | ds => Some ds
    end
  else None.

(** [s.match(/max-age=(\d+)/)?.[1]]: the pattern is tried at each
    position from the left; the first position where it matches gives
    the capture group, and [undefined] comes back when none does. *)
Fixpoint matchMaxAge (s : string) : option string :=
  match matchMaxAgeHere s with
  | Some ds => Some ds
  | None =>
      match s with
      | EmptyString => None
      | String _ s' => matchMaxAge s'
      end
  end.

Definition digitValue (c : ascii) : Z := Z.of_N (N_of_ascii c) - 48.

Fixpoint parseDigits (acc : Z) (s : string) : Z :=
  match s with
  | String c s' => if isDigit c then parseDigits (10 * acc + digitValue c) s' else acc
  | EmptyString => acc
  end.

(** [parseInt(s)] where [s] starts with a decimal digit (every argument
    the catalog passes: a capture of [\d+], or the literal "0"): the
    value of the leading run of digits in base 10.  The program uses the
    result only under [maxAge < 31536000], where a double holds it
    exactly, and in that comparison, which rounding to a double does not
    change (31536000 is a double, rounding is monotone). *)
Definition parseInt (s : string) : Z := parseDigits 0 s.

(** A number in a template literal, for an integer. *)
Definition numberToString (z : Z) : string :=
  NilEmpty.string_of_int (Z.to_int z).

(** A non-negative integer below 2^53 as a double (the conversion is
    exact there). *)
Definition toDouble (z : Z) : float := PrimFloat.of_uint63 (Uint63.of_Z z).

(** [Math.round(x)]: the integer nearest to [x], the one towards
    +infinity when two are equally near, so floor(x + 1/2) computed
    without rounding.  A finite double is (-1)^s * m * 2^e.  NaN and the
    infinities have no integer value and are sent to 0 here; the scorer
    does not reach them ([quotient_finite] below). *)
Definition Math_round (x : float) : Z :=
  match Prim2SF x with
  | S754_finite s m e =>
      let n := if s then Z.neg m else Z.pos m in
      if 0 <=? e then n * 2 ^ e
      else (2 * n + 2 ^ (- e)) / 2 ^ (1 - e)
  | _ => 0
  end.

End JS.

(* ================================================================== *)
(** ** Header lookup *)

(** [Record<string, string>], as [Object.entries] lists it. *)
Definition HeaderMap : Type := list (string * string).

Fixpoint findHeader_loop (lower : string) (entries : list (string * string))
  : option string :=
  match entries with
  | [] => None
  | (k, v) :: rest =>
      if JS.strictEq (JS.toLowerCase k) lower then Some v
      else findHeader_loop lower rest
  end.

Definition findHeader (headers : HeaderMap) (name : string) : option string :=
  let lower := JS.toLowerCase name in
  findHeader_loop lower headers.

(* ================================================================== *)
(** ** The check catalog *)

Inductive Severity : Type := critical | high | medium | low.

(** What a check returns: [{ pass; value?; detail? }]. *)
Record CheckOutcome : Type := mkOutcome {
  pass : bool;
  value : option string;
  detail : option string
}.

Record SecurityCheck : Type := mkCheck {
  name : string;
  header : string;
  description : string;
  severity : Severity;
  check : HeaderMap -> string -> CheckOutcome
}.

(** [val.slice(0, 80) + (val.length > 80 ? "..." : "")]. *)
Definition excerpt (val : string) : string :=
  JS.slice0 val 80 ++ (if (80 <? String.length val)%nat then "..." else "").

Definition check_HTTPS (_h : HeaderMap) (_html : string) : CheckOutcome :=
  mkOutcome true None (Some "Checked via crawl URL").

(** In each check below the first branch is [if (!val) return ...]:
    [val] is [undefined] or the empty string. *)
Definition check_HSTS (h : HeaderMap) (_html : string) : CheckOutcome :=
  match findHeader h "strict-transport-security" with
  | None | Some "" =>
      mkOutcome false None
        (Some "Header missing — browsers can connect over HTTP")
  | Some val =>
      let maxAge := JS.parseInt
        (match JS.matchMaxAge val with
         | None | Some "" => "0"
         | Some digits => digits
         end) in
      if maxAge <? 31536000 then
        mkOutcome true (Some val)
          (Some ("max-age=" ++ JS.numberToString maxAge
                 ++ " (recommend >= 31536000)"))
      else mkOutcome true (Some val) None
  end.

Definition check_CSP (h : HeaderMap) (_html : string) : CheckOutcome :=
  match findHeader h "content-security-policy" with
  | None | Some "" =>
      mkOutcome false None
        (Some "No CSP header — site is vulnerable to XSS injection")
  | Some val =>
      let hasUnsafe :=
        JS.includes val "unsafe-inline" || JS.includes val "unsafe-eval" in
      mkOutcome true (Some (excerpt val))
        (if hasUnsafe
         then Some "Contains unsafe-inline or unsafe-eval directives"
         else None)
  end.

Definition check_XFO (h : HeaderMap) (_html : string) : CheckOutcome :=
  match findHeader h "x-frame-options" with
  | None | Some "" =>
      mkOutcome false None
        (Some "Missing — page can be embedded in iframes (clickjacking risk)")
  | Some val => mkOutcome true (Some val) None
  end.

Definition check_XCTO (h : HeaderMap) (_html : string) : CheckOutcome :=
  match findHeader h "x-content-type-options" with
  | None | Some "" =>
      mkOutcome false None
        (Some "Missing — browser may MIME-sniff responses")
  | Some val =>
      mkOutcome (JS.strictEq (JS.toLowerCase val) "nosniff") (Some val) None
  end.

Definition check_Referrer (h : HeaderMap) (_html : string) : CheckOutcome :=
  match findHeader h "referrer-policy" with
  | None | Some "" =>
      mkOutcome false None
        (Some "Missing — full URL may leak in Referer header")
  | Some val => mkOutcome true (Some val) None
  end.

Definition check_Permissions (h : HeaderMap) (_html : string) : CheckOutcome :=
  match JS.orElse (findHeader h "permissions-policy")
                  (findHeader h "feature-policy") with
  | None | Some "" =>
      mkOutcome false None
        (Some "Missing — all browser features are allowed by default")
  | Some val => mkOutcome true (Some (excerpt val)) None
  end.

Definition check_XSS (h : HeaderMap) (_html : string) : CheckOutcome :=
  match findHeader h "x-xss-protection" with
  | None | Some "" =>
      mkOutcome false None
        (Some "Missing (note: modern browsers use CSP instead)")
  | Some val => mkOutcome true (Some val) None
  end.

Definition check_COOP (h : HeaderMap) (_html : string) : CheckOutcome :=
  match findHeader h "cross-origin-opener-policy" with
  | None | Some "" =>
      mkOutcome false None
        (Some "Missing — window can be referenced by cross-origin pages")
  | Some val => mkOutcome true (Some val) None
  end.

Definition check_CORP (h : HeaderMap) (_html : string) : CheckOutcome :=
  match findHeader h "cross-origin-resource-policy" with
  | None | Some "" => mkOutcome false None (Some "Missing")
  | Some val => mkOutcome true (Some val) None
  end.

Definition CHECKS : list SecurityCheck :=
  [ mkCheck "HTTPS" "url"
      "Site uses HTTPS encryption" critical check_HTTPS;
    mkCheck "Strict-Transport-Security" "strict-transport-security"
      "Forces HTTPS connections via HSTS" critical check_HSTS;
    mkCheck "Content-Security-Policy" "content-security-policy"
      "Mitigates XSS and injection attacks" critical check_CSP;
    mkCheck "X-Frame-Options" "x-frame-options"
      "Prevents clickjacking by controlling iframe embedding" high check_XFO;
    mkCheck "X-Content-Type-Options" "x-content-type-options"
      "Prevents MIME type sniffing" medium check_XCTO;
    mkCheck "Referrer-Policy" "referrer-policy"
      "Controls how much referrer info is sent" medium check_Referrer;
    mkCheck "Permissions-Policy" "permissions-policy"
      "Controls browser feature access (camera, mic, geolocation)" medium
      check_Permissions;
    mkCheck "X-XSS-Protection" "x-xss-protection"
      "Legacy XSS filter (deprecated but still checked)" low check_XSS;
    mkCheck "Cross-Origin-Opener-Policy" "cross-origin-opener-policy"
      "Isolates browsing context from cross-origin popups" low check_COOP;
    mkCheck "Cross-Origin-Resource-Policy" "cross-origin-resource-policy"
      "Prevents resources from being loaded cross-origin" low check_CORP ].

(* ================================================================== *)
(** ** Grade *)

Definition gradeFromScore (score : Z) : string :=
  if 90 <=? score then "A"
  else if 70 <=? score then "B"
  else if 50 <=? score then "C"
  else "F".

(* ================================================================== *)
(** ** Per-page results: counts and weighted score *)

(** One element of [checks]: [{ check, result }]. *)
Record CheckResult : Type := mkCheckResult {
  entry_check : SecurityCheck;
  entry_result : CheckOutcome
}.

Record PageResult : Type := mkPageResult {
  url : string;
  headers : HeaderMap;
  score : Z;
  checks : list CheckResult;
  passCount : Z;
  failCount : Z
}.

(** An element of [data] ([any]): each property may be missing. *)
Module Page.
Record t : Type := mk {
  url : option string;
  headers : option HeaderMap;
  content : option string
}.
End Page.

Definition weights (s : Severity) : Z :=
  match s with
  | critical => 30
  | high => 20
  | medium => 15
  | low => 10
  end.

(** One turn of [for (const c of checks)] on
    [(totalWeight, earnedWeight)]. *)
Definition weigh (acc : Z * Z) (c : CheckResult) : Z * Z :=
  let '(totalWeight, earnedWeight) := acc in
  let w := weights (severity (entry_check c)) in
  (totalWeight + w,
   if pass (entry_result c) then earnedWeight + w else earnedWeight).

Definition totalWeight (checks : list CheckResult) : Z :=
  fst (fold_left weigh checks (0, 0)).

Definition earnedWeight (checks : list CheckResult) : Z :=
  snd (fold_left weigh checks (0, 0)).

(** [(earnedWeight / totalWeight) * 100] on doubles. *)
Definition ratio100 (earned total : Z) : float :=
  PrimFloat.mul (PrimFloat.div (JS.toDouble earned) (JS.toDouble total))
                (JS.toDouble 100).

(** [totalWeight > 0 ? Math.round((earnedWeight / totalWeight) * 100) : 0]. *)
Definition weightedScore (checks : list CheckResult) : Z :=
  let totalWeight := totalWeight checks in
  let earnedWeight := earnedWeight checks in
  if 0 <? totalWeight then JS.Math_round (ratio100 earnedWeight totalWeight)
  else 0.

Definition evaluate (headers : HeaderMap) (html : string) : list CheckResult :=
  map (fun c => mkCheckResult c (check c headers html)) CHECKS.

(** The body of [for (const page of data)] after the guard on [page.url]. *)
Definition pageResult (pageUrl : string) (page : Page.t) : PageResult :=
  let headers :=
    match Page.headers page with Some h => h | None => [] end in
  let html :=
    match Page.content page with None | Some "" => "" | Some c => c end in
  let checks := evaluate headers html in
  let passCount :=
    Z.of_nat (List.length (filter (fun c => pass (entry_result c)) checks)) in
  let failCount :=
    Z.of_nat
      (List.length (filter (fun c => negb (pass (entry_result c))) checks)) in
  let score := weightedScore checks in
  mkPageResult pageUrl headers score checks passCount failCount.

(** One turn of [for (const page of data)] on [items]: [!page?.url]
    holds for a [null] page and for a missing or empty [url]. *)
Definition results_step (items : list PageResult) (page : option Page.t)
  : list PageResult :=
  match page with
  | None => items
  | Some p =>
      match Page.url p with
      | None | Some "" => items
      | Some u => items ++ [pageResult u p]
      end
  end.

(** [results]: [data] is [null] before the first crawl. *)
Definition results (data : option (list (option Page.t))) : list PageResult :=
  match data with
  | None | Some [] => []
  | Some pages => fold_left results_step pages []
  end.

(* ================================================================== *)
(** ** Markdown export: the display path *)

(** A statement or expression either completes with a value or throws. *)
Inductive Completion (A : Type) : Type :=
| Normal (a : A)
| Throw (e : string).
Arguments Normal {A} a.
Arguments Throw {A} e.

Definition bind {A B : Type} (c : Completion A) (k : A -> Completion B)
  : Completion B :=
  match c with
  | Normal a => k a
  | Throw e => Throw e
  end.

(** [try { body } catch { handler }]. *)
Definition tryCatch {A : Type} (body : Completion A) (handler : Completion A)
  : Completion A :=
  match body with
  | Normal a => Normal a
  | Throw _ => handler
  end.

Fixpoint mapCompletion {A B : Type} (f : A -> Completion B) (l : list A)
  : Completion (list B) :=
  match l with
  | [] => Normal []
  | a :: rest =>
      bind (f a) (fun b =>
      bind (mapCompletion f rest) (fun bs => Normal (b :: bs)))
  end.

(** What the program reads of a [URL] object. *)
Record URL : Type := mkURL { pathname : string }.

Definition newline : string := String (ascii_of_nat 10) EmptyString.

Section MarkdownExport.

(** The platform's [new URL(input)]: a [URL], or a [TypeError] thrown
    when [input] does not parse as an absolute URL. *)
Variable new_URL : string -> Completion URL.

(** [let path = r.url; try { path = new URL(r.url).pathname; } catch {}]:
    the value of [path] afterwards. *)
Definition displayPath (r : PageResult) : Completion string :=
  let path := url r in
  tryCatch (bind (new_URL (url r)) (fun u => Normal (pathname u)))
           (Normal path).

Definition mdRow (r : PageResult) : Completion string :=
  bind (displayPath r) (fun path =>
  Normal ("| " ++ path ++ " | " ++ JS.numberToString (score r)
          ++ " | " ++ gradeFromScore (score r)
          ++ " | " ++ JS.numberToString (passCount r)
          ++ " | " ++ JS.numberToString (failCount r) ++ " |")).

(** The [md] branch of [exportResults]: [None] is the early return on an
    empty [filtered]. *)
Definition exportMd (filtered : list PageResult)
  : Completion (option string) :=
  match filtered with
  | [] => Normal None
  | _ =>
      bind (mapCompletion mdRow filtered) (fun rows =>
      Normal (Some ("# Security Scan Report" ++ newline ++ newline
                    ++ "| URL | Score | Grade | Pass | Fail |" ++ newline
                    ++ "|---|---|---|---|---|" ++ newline
                    ++ String.concat newline rows)))
  end.

End MarkdownExport.

(* ================================================================== *)
(** ** More built-ins: arrays and sets *)

Module JSArray.

(** [x] put into a list already in order: after every element it does
    not come before. *)
Fixpoint insert {A : Type} (cmp : A -> A -> Z) (x : A) (l : list A) : list A :=
  match l with
  | [] => [x]
  | y :: rest =>
      if cmp x y <=? 0 then x :: y :: rest else y :: insert cmp x rest
  end.

(** [[...l].sort(cmp)].  The sort is stable, and for a comparator that
    is consistent (a total preorder, as a difference of integers is) the
    result is the one list that is in order and keeps the input order of
    the elements the comparator ties; inserting from the right builds
    it.  [cmp a b < 0] puts [a] first, [cmp a b > 0] puts [b] first. *)
Definition sort {A : Type} (cmp : A -> A -> Z) (l : list A) : list A :=
  fold_right (insert cmp) [] l.

End JSArray.

(** A [Set<number>]: its elements in insertion order, each once. *)
Module JSSet.

Definition t : Type := list Z.

Definition has (s : t) (x : Z) : bool := existsb (Z.eqb x) s.

Definition add (s : t) (x : Z) : t := if has s x then s else (s ++ [x])%list.

Definition delete (s : t) (x : Z) : t := filter (fun y => negb (x =? y)) s.

End JSSet.

(* ================================================================== *)
(** ** The view: filter, sort, expand *)

Inductive SortKey : Type := key_url | key_score | key_pass | key_fail.
Inductive SortDir : Type := asc | desc.

(** ["all" | "A" | "B" | "C" | "F"]. *)
Inductive FilterGrade : Type :=
  grade_all | grade_A | grade_B | grade_C | grade_F.

Definition filterGradeText (g : FilterGrade) : string :=
  match g with
  | grade_all => "all"
  | grade_A => "A"
  | grade_B => "B"
  | grade_C => "C"
  | grade_F => "F"
  end.

Definition SortKey_eqb (a b : SortKey) : bool :=
  match a, b with
  | key_url, key_url | key_score, key_score
  | key_pass, key_pass | key_fail, key_fail => true
  | _, _ => false
  end.

Section View.

(** The platform's [a.localeCompare(b)]: negative, zero or positive. *)
Variable localeCompare : string -> string -> Z.

(** The comparator of [filtered]. *)
Definition compareResults (sortKey : SortKey) (sortDir : SortDir)
    (a b : PageResult) : Z :=
  let cmp :=
    match sortKey with
    | key_url => localeCompare (url a) (url b)
    | key_score => score a - score b
    | key_pass => passCount a - passCount b
    | key_fail => failCount a - failCount b
    end in
  match sortDir with
  | desc => - cmp
  | asc => cmp
  end.

Definition filtered (results : list PageResult) (filterGrade : FilterGrade)
    (sortKey : SortKey) (sortDir : SortDir) : list PageResult :=
  let list :=
    if negb (JS.strictEq (filterGradeText filterGrade) "all")
    then filter (fun r => JS.strictEq (gradeFromScore (score r))
                                      (filterGradeText filterGrade)) results
    else results in
  JSArray.sort (compareResults sortKey sortDir) list.

End View.

(** [toggleSort] on the state [(sortKey, sortDir)]. *)
Definition toggleSort (state : SortKey * SortDir) (key : SortKey)
  : SortKey * SortDir :=
  let '(sortKey, sortDir) := state in
  if SortKey_eqb sortKey key
  then (sortKey, match sortDir with asc => desc | desc => asc end)
  else (key, match key with key_score => asc | _ => desc end).

(** [toggleExpand] on the state [expanded]. *)
Definition toggleExpand (prev : JSSet.t) (idx : Z) : JSSet.t :=
  let next := prev in
  if JSSet.has next idx then JSSet.delete next idx else JSSet.add next idx.

(* ================================================================== *)
(** ** Summary figures *)

(** [results.reduce((s, r) => s + r.score, 0)]. *)
Definition sumScores (results : list PageResult) : Z :=
  fold_left (fun s r => s + score r) results 0.

(** [avgScore]: the quotient is taken on doubles. *)
Definition avgScore (results : list PageResult) : Z :=
  if (0 <? List.length results)%nat
  then JS.Math_round
         (PrimFloat.div (JS.toDouble (sumScores results))
                        (JS.toDouble (Z.of_nat (List.length results))))
  else 0.

(** [{ A, B, C, F }]. *)
Record GradeCounts : Type := mkCounts {
  count_A : Z;
  count_B : Z;
  count_C : Z;
  count_F : Z
}.

(** [map[g]++] for a grade [g]; [gradeFromScore] returns no other
    string, and the last branch is not reached. *)
Definition bump (map : GradeCounts) (g : string) : GradeCounts :=
  if JS.strictEq g "A"
  then mkCounts (count_A map + 1) (count_B map) (count_C map) (count_F map)
  else if JS.strictEq g "B"
  then mkCounts (count_A map) (count_B map + 1) (count_C map) (count_F map)
  else if JS.strictEq g "C"
  then mkCounts (count_A map) (count_B map) (count_C map + 1) (count_F map)
  else if JS.strictEq g "F"
  then mkCounts (count_A map) (count_B map) (count_C map) (count_F map + 1)
  else map.

Definition gradeBreakdown (results : list PageResult) : GradeCounts :=
  fold_left (fun map r => bump map (gradeFromScore (score r))) results
            (mkCounts 0 0 0 0).

(** [gradeBreakdown[g]] for the grade of a filter button. *)
Definition countOf (map : GradeCounts) (g : FilterGrade) : option Z :=
  match g with
  | grade_all => None
  | grade_A => Some (count_A map)
  | grade_B => Some (count_B map)
  | grade_C => Some (count_C map)
  | grade_F => Some (count_F map)
  end.

(* ================================================================== *)
(** ** CSV export *)

Definition quote : string := String (ascii_of_nat 34) EmptyString.

Definition csvRow (r : PageResult) : string :=
  quote ++ url r ++ quote ++ "," ++ JS.numberToString (score r)
  ++ "," ++ gradeFromScore (score r)
  ++ "," ++ JS.numberToString (passCount r)
  ++ "," ++ JS.numberToString (failCount r).

(** The [csv] branch of [exportResults]: [None] is the early return on
    an empty [filtered]. *)
Definition exportCsv (filtered : list PageResult) : option string :=
  match filtered with
  | [] => None
  | _ =>
      Some ("URL,Score,Grade,Pass,Fail" ++ newline
            ++ String.concat newline (map csvRow filtered))
  end.

(* ================================================================== *)
(** ** The scorer as the specification words it *)

(** The integer nearest to [num / den] for [den > 0], the one farther
    from zero when two are equally near. *)
Definition roundHalfAway (num den : Z) : Z :=
  Z.sgn num * ((2 * Z.abs num + den) / (2 * den)).

Definition spec_totalWeight (l : list CheckResult) : Z :=
  fold_right Z.add 0 (map (fun c => weights (severity (entry_check c))) l).

Definition spec_earnedWeight (l : list CheckResult) : Z :=
  fold_right Z.add 0
    (map (fun c => weights (severity (entry_check c)))
         (filter (fun c => pass (entry_result c)) l)).

Definition spec_score (l : list CheckResult) : Z :=
  if 0 <? spec_totalWeight l
  then roundHalfAway (100 * spec_earnedWeight l) (spec_totalWeight l)
  else 0.

(* ================================================================== *)
(** ** Vocabulary of the properties *)

(** *** Header maps *)

(** A key matches a name when their lower-case forms are equal. *)
Definition keyMatches (name k : string) : Prop :=
  JS.toLowerCase k = JS.toLowerCase name.

(** No key of the map matches the name. *)
Definition headerAbsent (h : HeaderMap) (name : string) : Prop :=
  forall k v, In (k, v) h -> ~ keyMatches name k.

(** *** Strings *)

(** [sub] occurs in [s]. *)
Definition occursIn (sub s : string) : Prop :=
  exists pre post, s = pre ++ sub ++ post.

Fixpoint allDigits (ds : string) : bool :=
  match ds with
  | EmptyString => true
  | String c ds' => JS.isDigit c && allDigits ds'
  end.

Definition startsWithDigit (s : string) : bool :=
  match s with
  | String c _ => JS.isDigit c
  | EmptyString => false
  end.

(** The pattern max-age=<digits> matches [s] after [pre], capturing
    [ds]: the literal, then the longest non-empty run of digits. *)
Definition capturesAt (s pre ds : string) : Prop :=
  exists post,
    s = pre ++ "max-age=" ++ ds ++ post /\
    ds <> "" /\ allDigits ds = true /\ startsWithDigit post = false.

(** The numeric max-age of a header value: the digits of the first match
    of the pattern read in base 10, and 0 when the pattern does not
    match. *)
Definition maxAgeIs (val : string) (maxAge : Z) : Prop :=
  (exists pre ds,
      capturesAt val pre ds /\
      (forall pre' ds', capturesAt val pre' ds' ->
                        (String.length pre <= String.length pre')%nat) /\
      maxAge = JS.parseInt ds)
  \/ ((forall pre ds, ~ capturesAt val pre ds) /\ maxAge = 0).

(** The [maxAge] of the Strict-Transport-Security check. *)
Definition maxAgeOf (val : string) : Z :=
  JS.parseInt (match JS.matchMaxAge val with
               | None | Some "" => "0"
               | Some digits => digits
               end).

(** A lower-case letter a-z, and its upper-case form. *)
Definition isLowerLetter (x : ascii) : bool :=
  let n := N_of_ascii x in ((97 <=? n) && (n <=? 122))%N.

Definition upperOf (x : ascii) : ascii := ascii_of_N (N_of_ascii x - 32).

(** [val] is [low] up to the case of its letters: the same length, and
    at each position the letter of [low] or its upper-case form. *)
Fixpoint caseVariant (val low : string) : Prop :=
  match val, low with
  | EmptyString, EmptyString => True
  | String c val', String x low' =>
      (c = x \/ c = upperOf x) /\ caseVariant val' low'
  | _, _ => False
  end.

Fixpoint allLowerLetters (low : string) : bool :=
  match low with
  | EmptyString => true
  | String x low' => isLowerLetter x && allLowerLetters low'
  end.

(** The 256 code units. *)
Definition allUnits : list ascii := map ascii_of_nat (seq 0 256).

(** The advisory details of the checks. *)
Definition hstsAdvice (maxAge : Z) : string :=
  "max-age=" ++ JS.numberToString maxAge ++ " (recommend >= 31536000)".

Definition cspAdvice : string :=
  "Contains unsafe-inline or unsafe-eval directives".

(** *** Scoring over the catalog *)

(** What the scorer reads of a list of check results. *)
Definition profile (l : list CheckResult) : list (Severity * bool) :=
  map (fun c => (severity (entry_check c), pass (entry_result c))) l.

(** A list of check results with a given profile. *)
Definition ofProfile (p : list (Severity * bool)) : list CheckResult :=
  map (fun sb =>
         let outcome := mkOutcome (snd sb) None None in
         mkCheckResult
           (mkCheck "" "" "" (fst sb) (fun _ _ => outcome)) outcome) p.

Definition passes (l : list CheckResult) : list bool :=
  map (fun c => pass (entry_result c)) l.

(** The profile of the catalog under a vector of pass flags. *)
Definition catalogProfile (bs : list bool) : list (Severity * bool) :=
  combine (map severity CHECKS) bs.

(** All vectors of [n] flags. *)
Fixpoint boolLists (n : nat) : list (list bool) :=
  match n with
  | O => [[]]
  | S n' => flat_map (fun bs => [true :: bs; false :: bs]) (boolLists n')
  end.

(** One line of the table of the 1024 pass vectors over the catalog:
    the quotient is a finite double, the rounded score is the specified
    one and lies in 0..100. *)
Definition rowOK (bs : list bool) : bool :=
  let l := ofProfile (catalogProfile bs) in
  PrimFloat.is_finite (ratio100 (earnedWeight l) (totalWeight l))
  && (weightedScore l =? spec_score l)
  && (0 <=? weightedScore l) && (weightedScore l <=? 100).

(** *** Aggregation *)

(** What one element of [data] adds to [items]. *)
Definition emitted (page : option Page.t) : list PageResult :=
  results_step [] page.

Definition passed (c : CheckResult) : bool := pass (entry_result c).
Definition failed (c : CheckResult) : bool := negb (pass (entry_result c)).

(** The names of the checks of a page result that satisfy [f], in
    catalog order. *)
Definition namesWhere (f : CheckResult -> bool) (r : PageResult)
  : list string :=
  map (fun c => name (entry_check c)) (filter f (checks r)).

(** The page of the end-to-end example. *)
Definition exampleHeaders : HeaderMap :=
  [ ("strict-transport-security", "max-age=31536000");
    ("content-security-policy", "default-src 'self'");
    ("x-frame-options", "DENY");
    ("x-content-type-options", "nosniff");
    ("referrer-policy", "no-referrer") ].

Definition examplePage : Page.t :=
  Page.mk (Some "https://a.test/") (Some exampleHeaders) None.

(** *** Export *)

(** The path shown for a page result: the pathname of its url when the
    parser accepts it, the raw url when the parser throws. *)
Definition shownPath (new_URL : string -> Completion URL) (r : PageResult)
  : string :=
  match new_URL (url r) with
  | Normal u => pathname u
  | Throw _ => url r
  end.

(** The row of the Markdown table for a page result, with a given text
    in its URL column. *)
Definition mdRowWith (column : string) (r : PageResult) : string :=
  "| " ++ column ++ " | " ++ JS.numberToString (score r)
  ++ " | " ++ gradeFromScore (score r)
  ++ " | " ++ JS.numberToString (passCount r)
  ++ " | " ++ JS.numberToString (failCount r) ++ " |".

(** The title, the header row and the separator row of the Markdown
    export, each with its line break. *)
Definition mdHeader : string :=
  "# Security Scan Report" ++ newline ++ newline
  ++ "| URL | Score | Grade | Pass | Fail |" ++ newline
  ++ "|---|---|---|---|---|" ++ newline.

Fixpoint noPipe (s : string) : bool :=
  match s with
  | EmptyString => true
  | String c s' => negb (Ascii.eqb c "|") && noPipe s'
  end.

(** The text before the first cell separator (space, bar, space). *)
Fixpoint beforeSeparator (s : string) : string :=
  if String.prefix " | " s then EmptyString
  else match s with
       | EmptyString => EmptyString
       | String c s' => String c (beforeSeparator s')
       end.

(** The first cell of a table row: what stands between the opening bar
    and space and the first cell separator. *)
Definition firstCell (row : string) : string :=
  beforeSeparator (JS.dropUnits 2 row).

(** A stand-in for the platform's parser, used only to run the export
    on concrete input.  It is a table of two URLs, https://a.test/login
    and https://a.test/, with the pathnames the platform gives them
    (/login and /), and it throws on every other string; it agrees with
    the platform on those two URLs and on strings that are not URLs, and
    stands for it nowhere else. *)
Definition sampleParser (input : string) : Completion URL :=
  if String.eqb input "https://a.test/login" then Normal (mkURL "/login")
  else if String.eqb input "https://a.test/" then Normal (mkURL "/")
  else Throw "TypeError: Invalid URL".

(** *** Profiles over the catalog *)

(** The score of a profile. *)
Definition scoreOfProfile (p : list (Severity * bool)) : Z :=
  weightedScore (ofProfile p).

(** The severities of the failing checks of a profile, in order. *)
Definition failingSeverities (p : list (Severity * bool)) : list Severity :=
  map fst (filter (fun sb => negb (snd sb)) p).

Definition mediumOrLow (s : Severity) : bool :=
  match s with
  | medium | low => true
  | critical | high => false
  end.

(** No check fails, or one does and it is of medium or low severity. *)
Definition atMostOneMinorFailure (p : list (Severity * bool)) : bool :=
  match failingSeverities p with
  | [] => true
  | [s] => mediumOrLow s
  | _ => false
  end.

(** One line of the table of the 1024 profiles over the catalog: the
    score is 100 exactly when nothing fails, 90 or more exactly when at
    most one check of medium or low severity fails, and at least 16 when
    the first check passes. *)
Definition profileOK (p : list (Severity * bool)) : bool :=
  Bool.eqb (scoreOfProfile p =? 100)
           (match failingSeverities p with [] => true | _ => false end)
  && Bool.eqb (90 <=? scoreOfProfile p) (atMostOneMinorFailure p)
  && implb (match p with (_, b) :: _ => b | [] => false end)
           (16 <=? scoreOfProfile p)
  && (scoreOfProfile p =? spec_score (ofProfile p)).

(** [l'] passes every check that [l] passes. *)
Definition passesAtLeast (l l' : list CheckResult) : Prop :=
  Forall2 (fun c c' => pass (entry_result c) = true ->
                       pass (entry_result c') = true) l l'.

(** *** Header maps up to case and order *)

(** [h'] is [h] with header names spelled in another case: the same
    entries in the same order, each key changed at most in case. *)
Definition recased (h h' : HeaderMap) : Prop :=
  Forall2 (fun e e' => keyMatches (fst e) (fst e') /\ snd e = snd e') h h'.

Definition lowerKeys (h : HeaderMap) : HeaderMap :=
  map (fun e => (JS.toLowerCase (fst e), snd e)) h.

(** No two keys of the map are equal up to case. *)
Definition distinctIgnoringCase (h : HeaderMap) : Prop :=
  NoDup (map (fun e => JS.toLowerCase (fst e)) h).

(** A lookup result a check treats as missing. *)
Definition missingOrEmpty (v : option string) : Prop :=
  v = None \/ v = Some "".

(** The checks that only ask for a header to be there. *)
Definition presenceOnly : list string :=
  [ "X-Frame-Options"; "Referrer-Policy"; "X-XSS-Protection";
    "Cross-Origin-Opener-Policy"; "Cross-Origin-Resource-Policy" ].

(** *** The view *)

(** The number a numeric sort key reads off a page result. *)
Definition numericKey (k : SortKey) : option (PageResult -> Z) :=
  match k with
  | key_url => None
  | key_score => Some score
  | key_pass => Some passCount
  | key_fail => Some failCount
  end.

(** A page result is kept by a grade filter. *)
Definition keptBy (g : FilterGrade) (r : PageResult) : bool :=
  match g with
  | grade_all => true
  | _ => String.eqb (gradeFromScore (score r)) (filterGradeText g)
  end.

(** The order of a direction on numbers. *)
Definition inDirection (d : SortDir) (x y : Z) : Prop :=
  match d with
  | asc => x <= y
  | desc => y <= x
  end.

(** *** Lines of a text *)

Definition isNewline (c : ascii) : bool := Ascii.eqb c (ascii_of_nat 10).

Fixpoint noNewline (s : string) : bool :=
  match s with
  | EmptyString => true
  | String c s' => negb (isNewline c) && noNewline s'
  end.

(** The lines of a text: what stands between its line breaks. *)
Fixpoint splitLines (s : string) : list string :=
  match s with
  | EmptyString => [EmptyString]
  | String c s' =>
      if isNewline c then EmptyString :: splitLines s'
      else match splitLines s' with
           | line :: lines => String c line :: lines
           | [] => [String c EmptyString]
           end
  end.

(** *** The average over small tables *)

(** For [n] pages whose scores add up to [s], the double quotient rounds
    to the mean rounded to the nearest integer, halves up. *)
Definition avgRowOK (n s : nat) : bool :=
  JS.Math_round (PrimFloat.div (JS.toDouble (Z.of_nat s))
                               (JS.toDouble (Z.of_nat n)))
  =? roundHalfAway (Z.of_nat s) (Z.of_nat n).

(* ================================================================== *)
(** * Properties *)

(** ** The built-ins on concrete input *)

Example toLowerCase_examples :
  JS.toLowerCase "X-Frame-Options" = "x-frame-options" /\
  JS.toLowerCase "NoSniff" = "nosniff" /\
  JS.toLowerCase "max-age=1; A_Z[@`{" = "max-age=1; a_z[@`{".
Proof. repeat split. Qed.

Example matchMaxAge_examples :
  JS.matchMaxAge "max-age=3600" = Some "3600" /\
  JS.matchMaxAge "includeSubDomains; max-age=0042; preload" = Some "0042" /\
  JS.matchMaxAge "max-age=; max-age=7x; max-age=9" = Some "7" /\
  JS.matchMaxAge "Max-Age=3600" = None /\
  JS.matchMaxAge "max-age = 3600" = None /\
  JS.parseInt "0042" = 42 /\ JS.parseInt "0" = 0 /\
  JS.numberToString 42 = "42" /\ JS.numberToString 0 = "0".
Proof. repeat split. Qed.

Example Math_round_examples :
  JS.Math_round 2.5%float = 3 /\ JS.Math_round (-2.5)%float = -2 /\
  JS.Math_round 0.5%float = 1 /\ JS.Math_round (-0.5)%float = 0 /\
  JS.Math_round 76.75%float = 77 /\ JS.Math_round 0.25%float = 0 /\
  JS.Math_round 100%float = 100 /\ JS.Math_round 0%float = 0 /\
  JS.Math_round (ratio100 140 185) = 76.
Proof. vm_compute. repeat split. Qed.

Lemma lowerUnit_idempotent c : JS.lowerUnit (JS.lowerUnit c) = JS.lowerUnit c.
Proof. destruct c as [[] [] [] [] [] [] [] []]; reflexivity. Qed.

Lemma toLowerCase_idempotent s :
  JS.toLowerCase (JS.toLowerCase s) = JS.toLowerCase s.
Proof.
  induction s as [|c s IH]; simpl; [reflexivity|].
  now rewrite lowerUnit_idempotent, IH.
Qed.

Lemma allUnits_complete c : In c allUnits.
Proof.
  unfold allUnits. rewrite <- (ascii_nat_embedding c).
  apply in_map, in_seq. pose proof (nat_ascii_bounded c). lia.
Qed.

(** Only a letter and its upper-case form lower to that letter. *)
Lemma lowerUnit_letter c x :
  isLowerLetter x = true ->
  (JS.lowerUnit c = x <-> c = x \/ c = upperOf x).
Proof.
  intros L.
  assert (forallb (fun c' => forallb (fun x' =>
            implb (isLowerLetter x')
              (Bool.eqb (Ascii.eqb (JS.lowerUnit c') x')
                        (Ascii.eqb c' x' || Ascii.eqb c' (upperOf x'))))
            allUnits) allUnits = true) as T by (vm_compute; reflexivity).
  rewrite forallb_forall in T. specialize (T c (allUnits_complete c)).
  rewrite forallb_forall in T. specialize (T x (allUnits_complete x)).
  rewrite L in T. simpl in T. apply Bool.eqb_prop in T.
  rewrite <- Ascii.eqb_eq, T, orb_true_iff, !Ascii.eqb_eq. reflexivity.
Qed.

Lemma toLowerCase_caseVariant val low :
  allLowerLetters low = true ->
  (JS.toLowerCase val = low <-> caseVariant val low).
Proof.
  revert low. induction val as [|c val IH]; intros [|x low] L; simpl in *;
    try (split; [discriminate | contradiction]); [tauto|].
  apply andb_true_iff in L as [Lx L].
  rewrite <- (IH low L), <- (lowerUnit_letter c x Lx).
  split; [intros [= -> ->]; auto | intros [-> ->]; reflexivity].
Qed.

Lemma toLowerCase_length s :
  String.length (JS.toLowerCase s) = String.length s.
Proof. induction s; simpl; congruence. Qed.

(** [parseInt] reads back what a template literal prints. *)
Lemma parseDigits_acc d p :
  JS.parseDigits (Z.pos p) (NilEmpty.string_of_uint d)
  = Z.pos (Pos.of_uint_acc d p).
Proof.
  revert p.
  induction d as [|d IH|d IH|d IH|d IH|d IH|d IH|d IH|d IH|d IH|d IH];
    intros p; [reflexivity|..];
    cbn [NilEmpty.string_of_uint Pos.of_uint_acc JS.parseDigits];
    match goal with
    | |- context [JS.isDigit ?c] =>
        change (JS.isDigit c) with true;
        let v := eval vm_compute in (JS.digitValue c) in
        change (JS.digitValue c) with v
    end;
    cbv iota; rewrite <- IH; f_equal; lia.
Qed.

Lemma parseDigits_zero d :
  JS.parseDigits 0 (NilEmpty.string_of_uint d) = Z.of_N (Pos.of_uint d).
Proof.
  induction d as [|d IH|d IH|d IH|d IH|d IH|d IH|d IH|d IH|d IH|d IH];
    [ reflexivity | exact IH
    | exact (parseDigits_acc d 1) | exact (parseDigits_acc d 2)
    | exact (parseDigits_acc d 3) | exact (parseDigits_acc d 4)
    | exact (parseDigits_acc d 5) | exact (parseDigits_acc d 6)
    | exact (parseDigits_acc d 7) | exact (parseDigits_acc d 8)
    | exact (parseDigits_acc d 9) ].
Qed.

Lemma parseInt_numberToString z :
  0 <= z -> JS.parseInt (JS.numberToString z) = z.
Proof.
  intros H. destruct z as [|p|p]; [reflexivity| |lia].
  unfold JS.parseInt, JS.numberToString.
  cbn [Z.to_int NilEmpty.string_of_int].
  rewrite parseDigits_zero, DecimalPos.Unsigned.of_to. reflexivity.
Qed.

(** ** Header lookup *)

Section FindHeader.

Implicit Types (headers : HeaderMap) (k v name lower : string).

Lemma strictEq_true a b : JS.strictEq a b = true <-> a = b.
Proof. apply String.eqb_eq. Qed.

Lemma strictEq_false a b : JS.strictEq a b = false <-> a <> b.
Proof. apply String.eqb_neq. Qed.

Lemma findHeader_loop_Some lower entries v :
  findHeader_loop lower entries = Some v <->
  exists pre k post,
    entries = (pre ++ (k, v) :: post)%list /\
    JS.toLowerCase k = lower /\
    forall k' v', In (k', v') pre -> JS.toLowerCase k' <> lower.
Proof.
  induction entries as [|[k0 v0] rest IH]; simpl.
  - split; [discriminate|].
    intros (pre & k & post & E & _). destruct pre; discriminate.
  - destruct (JS.strictEq (JS.toLowerCase k0) lower) eqn:E0.
    + apply strictEq_true in E0. split.
      * intros [= <-]. exists [], k0, rest. repeat split; auto.
      * intros (pre & k & post & E & Hk & Hpre).
        destruct pre as [|[k1 v1] pre]; simpl in E.
        -- now inversion E.
        -- inversion E; subst k1 v1. exfalso.
           apply (Hpre k0 v0); [now left | assumption].
    + apply strictEq_false in E0. rewrite IH. split.
      * intros (pre & k & post & E & Hk & Hpre).
        exists ((k0, v0) :: pre), k, post. repeat split.
        -- simpl. now rewrite E.
        -- assumption.
        -- intros k' v' [[= <- <-]|Hin]; [assumption | eauto].
      * intros (pre & k & post & E & Hk & Hpre).
        destruct pre as [|[k1 v1] pre]; simpl in E.
        -- inversion E; subst k0 v0. contradiction.
        -- inversion E; subst k1 v1. exists pre, k, post. repeat split; auto.
           intros k' v' Hin. apply (Hpre k' v'). now right.
Qed.

Lemma findHeader_loop_None lower entries :
  findHeader_loop lower entries = None <->
  forall k v, In (k, v) entries -> JS.toLowerCase k <> lower.
Proof.
  induction entries as [|[k0 v0] rest IH]; simpl.
  - split; [intros _ k v []|reflexivity].
  - destruct (JS.strictEq (JS.toLowerCase k0) lower) eqn:E0.
    + apply strictEq_true in E0. split; [discriminate|].
      intros H. exfalso. apply (H k0 v0); [now left | assumption].
    + apply strictEq_false in E0. rewrite IH. split.
      * intros H k v [[= <- <-]|Hin]; [assumption | eauto].
      * intros H k v Hin. apply (H k v). now right.
Qed.

End FindHeader.

(** C5.  Header lookup compares lower-cased names: it returns the value of
    the first entry, in iteration order, whose key matches the name
    ignoring case, and returns the absent value (never an error) exactly
    when no key matches; looking up X-Frame-Options in a map that stores
    x-frame-options with value DENY returns DENY. *)
Theorem findHeader_first_match_ignoring_case :
  (forall headers name v,
      findHeader headers name = Some v <->
      exists pre k post,
        headers = (pre ++ (k, v) :: post)%list /\
        keyMatches name k /\
        forall k' v', In (k', v') pre -> ~ keyMatches name k') /\
  (forall headers name,
      findHeader headers name = None <->
      forall k v, In (k, v) headers -> ~ keyMatches name k) /\
  findHeader [("x-frame-options", "DENY")] "X-Frame-Options" = Some "DENY".
Proof.
  unfold findHeader, keyMatches. repeat split.
  - apply findHeader_loop_Some.
  - apply findHeader_loop_Some.
  - apply findHeader_loop_None.
  - apply findHeader_loop_None.
Qed.

(** ** Grade *)

(** C2.  The grade of an integer score is A from 90 up, B from 70 to 89,
    C from 50 to 69 and F below 50; 90 gives A, 89 and 70 give B, 69 and
    50 give C, 49 gives F. *)
Theorem gradeFromScore_thresholds (s : Z) :
  (90 <= s -> gradeFromScore s = "A") /\
  (70 <= s < 90 -> gradeFromScore s = "B") /\
  (50 <= s < 70 -> gradeFromScore s = "C") /\
  (s < 50 -> gradeFromScore s = "F") /\
  gradeFromScore 90 = "A" /\ gradeFromScore 89 = "B" /\
  gradeFromScore 70 = "B" /\ gradeFromScore 69 = "C" /\
  gradeFromScore 50 = "C" /\ gradeFromScore 49 = "F".
Proof.
  unfold gradeFromScore.
  repeat split; try reflexivity; intros H;
    destruct (Z.leb_spec 90 s); destruct (Z.leb_spec 70 s);
    destruct (Z.leb_spec 50 s); try reflexivity; lia.
Qed.

Lemma gradeFromScore_thresholds_witness :
  gradeFromScore 93 = "A" /\ gradeFromScore 75 = "B" /\
  gradeFromScore 51 = "C" /\ gradeFromScore 12 = "F".
Proof.
  split; [|split; [|split]].
  - apply (proj1 (gradeFromScore_thresholds 93)). lia.
  - apply (proj1 (proj2 (gradeFromScore_thresholds 75))). lia.
  - apply (proj1 (proj2 (proj2 (gradeFromScore_thresholds 51)))). lia.
  - apply (proj1 (proj2 (proj2 (proj2 (gradeFromScore_thresholds 12))))). lia.
Defined.

(** ** Weighted score *)

Section Scoring.

Implicit Types (l : list CheckResult) (bs : list bool).

Lemma profile_ofProfile p : profile (ofProfile p) = p.
Proof.
  induction p as [|[s b] p IH]; simpl; [reflexivity|]. now rewrite IH.
Qed.

Lemma fold_weigh_profile l l' acc :
  profile l = profile l' -> fold_left weigh l acc = fold_left weigh l' acc.
Proof.
  revert l' acc. induction l as [|c l IH]; intros [|c' l'] acc H;
    try discriminate; [reflexivity|].
  simpl in H. injection H as Hs Hp Hl. simpl.
  assert (weigh acc c = weigh acc c') as ->.
  { destruct acc as [t e]. unfold weigh. now rewrite Hs, Hp. }
  now apply IH.
Qed.

Lemma weightedScore_profile l l' :
  profile l = profile l' -> weightedScore l = weightedScore l'.
Proof.
  intros H. unfold weightedScore, totalWeight, earnedWeight.
  now rewrite (fold_weigh_profile l l' _ H).
Qed.

Lemma fold_weigh_sums l t e :
  fold_left weigh l (t, e) = (t + spec_totalWeight l, e + spec_earnedWeight l).
Proof.
  revert t e. induction l as [|c l IH]; intros t e; simpl.
  - f_equal; unfold spec_totalWeight, spec_earnedWeight; simpl; lia.
  - rewrite IH. unfold spec_totalWeight, spec_earnedWeight. simpl.
    destruct (pass (entry_result c)); simpl; f_equal; lia.
Qed.

Lemma totalWeight_sum l : totalWeight l = spec_totalWeight l.
Proof. unfold totalWeight. now rewrite fold_weigh_sums. Qed.

Lemma earnedWeight_sum l : earnedWeight l = spec_earnedWeight l.
Proof. unfold earnedWeight. now rewrite fold_weigh_sums. Qed.

Lemma spec_score_profile l l' :
  profile l = profile l' -> spec_score l = spec_score l'.
Proof.
  intros H. unfold spec_score.
  rewrite <- !totalWeight_sum, <- !earnedWeight_sum.
  unfold totalWeight, earnedWeight.
  now rewrite (fold_weigh_profile l l' _ H).
Qed.

Lemma profile_combine l :
  profile l = combine (map severity (map entry_check l)) (passes l).
Proof.
  induction l as [|c l IH]; simpl; [reflexivity|]. now rewrite IH.
Qed.

Lemma profile_catalog l :
  map entry_check l = CHECKS -> profile l = catalogProfile (passes l).
Proof. intros H. rewrite profile_combine, H. reflexivity. Qed.

Lemma passes_length_catalog l :
  map entry_check l = CHECKS -> List.length (passes l) = 10%nat.
Proof.
  intros H. unfold passes. rewrite length_map.
  rewrite <- (length_map entry_check), H. reflexivity.
Qed.

Lemma boolLists_complete bs : In bs (boolLists (List.length bs)).
Proof.
  induction bs as [|b bs IH]; simpl; [now left|].
  apply in_flat_map. exists bs. split; [assumption|].
  destruct b; simpl; auto.
Qed.

Lemma catalog_table : forallb rowOK (boolLists 10) = true.
Proof. vm_compute. reflexivity. Qed.

Lemma catalog_row l :
  map entry_check l = CHECKS -> rowOK (passes l) = true.
Proof.
  intros H. pose proof catalog_table as T.
  rewrite forallb_forall in T. apply T.
  rewrite <- (passes_length_catalog l H). apply boolLists_complete.
Qed.

Lemma catalog_row_transfer l :
  map entry_check l = CHECKS ->
  profile l = profile (ofProfile (catalogProfile (passes l))).
Proof. intros H. rewrite profile_ofProfile. now apply profile_catalog. Qed.

Lemma quotient_finite l :
  map entry_check l = CHECKS ->
  PrimFloat.is_finite (ratio100 (earnedWeight l) (totalWeight l)) = true.
Proof.
  intros H. pose proof (catalog_row l H) as R.
  pose proof (catalog_row_transfer l H) as P.
  unfold rowOK in R. rewrite !andb_true_iff in R.
  destruct R as [[[R _] _] _].
  unfold earnedWeight, totalWeight in *.
  now rewrite (fold_weigh_profile _ _ _ P).
Qed.

Lemma weightedScore_catalog_range l :
  map entry_check l = CHECKS -> 0 <= weightedScore l <= 100.
Proof.
  intros H. pose proof (catalog_row l H) as R.
  pose proof (catalog_row_transfer l H) as P.
  unfold rowOK in R. rewrite !andb_true_iff in R.
  destruct R as [[[_ _] R1] R2].
  rewrite (weightedScore_profile _ _ P). lia.
Qed.

Lemma weightedScore_no_weight l :
  totalWeight l <= 0 -> weightedScore l = 0.
Proof.
  intros H. unfold weightedScore.
  destruct (Z.ltb_spec 0 (totalWeight l)); [lia | reflexivity].
Qed.

Lemma roundHalfAway_nearest num den :
  0 < den -> 2 * Z.abs (roundHalfAway num den * den - num) <= den.
Proof.
  intros Hd. unfold roundHalfAway.
  pose proof (Z.div_mod (2 * Z.abs num + den) (2 * den)) as D.
  pose proof (Z.mod_pos_bound (2 * Z.abs num + den) (2 * den)) as B.
  set (q := (2 * Z.abs num + den) / (2 * den)) in *.
  set (m := (2 * Z.abs num + den) mod (2 * den)) in *.
  destruct (Z.sgn_spec num) as [[? ->]|[[? ->]|[? ->]]]; lia.
Qed.

Lemma roundHalfAway_tie num den k :
  0 < den -> 0 <= k -> 2 * Z.abs num = (2 * k + 1) * den ->
  roundHalfAway num den = Z.sgn num * (k + 1).
Proof.
  intros Hd Hk E. unfold roundHalfAway. f_equal.
  replace (2 * Z.abs num + den) with ((k + 1) * (2 * den)) by lia.
  apply Z.div_mul. lia.
Qed.

End Scoring.

(** C1.  Over the catalog (a list of check results whose checks are the
    ten of [CHECKS], in order, with any outcomes), the weights the loop
    accumulates are the sum of the severity weights of all checks and the
    sum over the passing ones, and the score is 100 * earned / total
    rounded to the nearest integer, halves away from zero (0 were the
    total not positive). *)
Theorem weightedScore_is_rounded_ratio (l : list CheckResult)
    (H : map entry_check l = CHECKS) :
  totalWeight l = spec_totalWeight l /\
  earnedWeight l = spec_earnedWeight l /\
  weightedScore l = spec_score l /\
  (forall l', totalWeight l' <= 0 -> weightedScore l' = 0).
Proof.
  split; [apply totalWeight_sum|].
  split; [apply earnedWeight_sum|].
  split; [|apply weightedScore_no_weight].
  pose proof (catalog_row l H) as R.
  pose proof (catalog_row_transfer l H) as P.
  unfold rowOK in R. rewrite !andb_true_iff in R.
  destruct R as [[[_ R] _] _]. apply Z.eqb_eq in R.
  now rewrite (weightedScore_profile _ _ P), (spec_score_profile _ _ P).
Qed.

Lemma weightedScore_is_rounded_ratio_witness :
  let l := evaluate [("x-frame-options", "DENY")] "" in
  weightedScore l = spec_score l.
Proof.
  intros l.
  exact (proj1 (proj2 (proj2
           (weightedScore_is_rounded_ratio l eq_refl)))).
Defined.

(** Outside the catalog the double quotient can land on the other side
    of a half: with total weight 1000 and earned weight 145 the program
    computes 14.499999999999998 and rounds to 14, where 14.5 rounds
    to 15. *)
Remark weightedScore_beyond_catalog :
  let l := ofProfile (repeat (critical, true) 4
                      ++ [(medium, true); (low, true)]
                      ++ repeat (critical, false) 28
                      ++ [(medium, false)])%list in
  totalWeight l = 1000 /\ earnedWeight l = 145 /\
  weightedScore l = 14 /\ spec_score l = 15.
Proof. vm_compute. repeat split. Qed.

(** ** Aggregation *)

Section Aggregation.

Implicit Types (pages : list (option Page.t)) (items : list PageResult).

Lemma evaluate_checks h html : map entry_check (evaluate h html) = CHECKS.
Proof. reflexivity. Qed.

Lemma filter_partition_length {A} (f : A -> bool) (xs : list A) :
  (List.length (filter f xs)
   + List.length (filter (fun x => negb (f x)) xs))%nat = List.length xs.
Proof.
  induction xs as [|x xs IH]; simpl; [reflexivity|].
  destruct (f x); simpl; lia.
Qed.

Lemma pageResult_checks u p :
  map entry_check (checks (pageResult u p)) = CHECKS.
Proof. reflexivity. Qed.

Lemma pageResult_counts u p :
  passCount (pageResult u p) + failCount (pageResult u p) = 10.
Proof.
  unfold pageResult. cbn [passCount failCount].
  rewrite <- Nat2Z.inj_add, filter_partition_length.
  unfold evaluate. rewrite length_map. reflexivity.
Qed.

Lemma pageResult_score_range u p : 0 <= score (pageResult u p) <= 100.
Proof.
  unfold pageResult. cbn [score].
  apply weightedScore_catalog_range, evaluate_checks.
Qed.

Lemma results_step_emitted items page :
  results_step items page = (items ++ emitted page)%list.
Proof.
  unfold emitted, results_step.
  destruct page as [p|]; [|now rewrite app_nil_r].
  destruct (Page.url p) as [[|c u]|]; now rewrite ?app_nil_r.
Qed.

Lemma fold_results_step pages items :
  fold_left results_step pages items = (items ++ flat_map emitted pages)%list.
Proof.
  revert items. induction pages as [|page pages IH]; intros items; simpl.
  - now rewrite app_nil_r.
  - rewrite IH, results_step_emitted, <- app_assoc. reflexivity.
Qed.

Lemma results_flat_map pages : results (Some pages) = flat_map emitted pages.
Proof.
  unfold results. destruct pages as [|page pages]; [reflexivity|].
  now rewrite fold_results_step.
Qed.

Lemma emitted_inv page r :
  In r (emitted page) ->
  exists p u, page = Some p /\ Page.url p = Some u /\ u <> "" /\
              r = pageResult u p.
Proof.
  unfold emitted, results_step. destruct page as [p|]; [|intros []].
  destruct (Page.url p) as [[|c u]|] eqn:E; simpl.
  - intros [].
  - intros [<-|[]]. exists p, (String c u). repeat split; auto. discriminate.
  - intros [].
Qed.

Lemma results_inv data r :
  In r (results data) ->
  exists pages p u,
    data = Some pages /\ In (Some p) pages /\
    Page.url p = Some u /\ u <> "" /\ r = pageResult u p.
Proof.
  destruct data as [pages|]; [|intros []].
  rewrite results_flat_map, in_flat_map.
  intros (page & Hin & Hr).
  destruct (emitted_inv page r Hr) as (p & u & -> & Hu & Hne & ->).
  exists pages, p, u. auto.
Qed.

Lemma emitted_falsy p :
  Page.url p = None \/ Page.url p = Some "" -> emitted (Some p) = [].
Proof. unfold emitted, results_step. now intros [-> | ->]. Qed.

End Aggregation.

(** C3.  Every page result the aggregator produces, for any input, has
    passCount + failCount = 10 and a score between 0 and 100. *)
Theorem results_counts_and_score_range
    (data : option (list (option Page.t))) (r : PageResult)
    (H : In r (results data)) :
  passCount r + failCount r = 10 /\ 0 <= score r <= 100.
Proof.
  destruct (results_inv data r H) as (pages & p & u & _ & _ & _ & _ & ->).
  split; [apply pageResult_counts | apply pageResult_score_range].
Qed.

Lemma results_counts_and_score_range_witness :
  let p := Page.mk (Some "https://a.test/")
             (Some [("X-Content-Type-Options", "NoSniff")]) None in
  let r := pageResult "https://a.test/" p in
  passCount r + failCount r = 10 /\ 0 <= score r <= 100.
Proof.
  intros p r.
  apply (results_counts_and_score_range (Some [None; Some p]) r).
  simpl. left. reflexivity.
Defined.

(** C10.  The aggregator produces nothing for an element of the input
    whose url is missing or the empty string (nor for a null element):
    the results are those of the input without it; and every page result
    it does produce has a non-empty url, the url of an element of the
    input. *)
Theorem results_skip_falsy_url :
  (forall data r,
      In r (results data) ->
      url r <> "" /\
      exists pages p, data = Some pages /\ In (Some p) pages /\
                      Page.url p = Some (url r)) /\
  (forall pre p post,
      Page.url p = None \/ Page.url p = Some "" ->
      results (Some (pre ++ Some p :: post)%list)
      = results (Some (pre ++ post)%list)) /\
  (forall pre post,
      results (Some (pre ++ None :: post)%list)
      = results (Some (pre ++ post)%list)).
Proof.
  split; [|split].
  - intros data r H.
    destruct (results_inv data r H) as (pages & p & u & -> & Hin & Hu & Hne & ->).
    split; [exact Hne|]. exists pages, p. auto.
  - intros pre p post Hp.
    rewrite !results_flat_map, !flat_map_app. cbn [flat_map].
    now rewrite (emitted_falsy p Hp).
  - intros pre post.
    rewrite !results_flat_map, !flat_map_app. reflexivity.
Qed.

Lemma results_skip_falsy_url_witness :
  let a := Page.mk (Some "https://a.test/") None None in
  let e := Page.mk (Some "") (Some [("x-frame-options", "DENY")]) None in
  results (Some [Some a; Some e]) = results (Some [Some a]) /\
  url (pageResult "https://a.test/" a) <> "".
Proof.
  intros a e. split.
  - apply (proj1 (proj2 results_skip_falsy_url) [Some a] e []).
    right. reflexivity.
  - apply (proj1 results_skip_falsy_url (Some [Some a])).
    simpl. left. reflexivity.
Defined.

(** ** The end-to-end example *)

(** C4, as the specification states it, does not hold: on the example
    page the pipeline yields one result, and its earned weight, total
    weight and score are not the 165, 215 and 77 stated. *)
Lemma example_page_not_165_215_77 :
  exists r,
    results (Some [Some examplePage]) = [r] /\
    earnedWeight (checks r) <> 165 /\
    totalWeight (checks r) <> 215 /\
    score r <> 77.
Proof.
  exists (pageResult "https://a.test/" examplePage).
  split; [reflexivity|].
  repeat split; vm_compute; discriminate.
Qed.

(** C4, amended.  On the example page the pipeline yields one result with
    six passing checks (HTTPS, HSTS, CSP, X-Frame-Options,
    X-Content-Type-Options, Referrer-Policy) and four failing ones
    (Permissions-Policy, X-XSS-Protection, Cross-Origin-Opener-Policy,
    Cross-Origin-Resource-Policy), earned weight 140 of total weight 185,
    score 76 and grade B. *)
Theorem example_page_pipeline :
  exists r,
    results (Some [Some examplePage]) = [r] /\
    url r = "https://a.test/" /\
    namesWhere passed r =
      [ "HTTPS"; "Strict-Transport-Security"; "Content-Security-Policy";
        "X-Frame-Options"; "X-Content-Type-Options"; "Referrer-Policy" ] /\
    namesWhere failed r =
      [ "Permissions-Policy"; "X-XSS-Protection";
        "Cross-Origin-Opener-Policy"; "Cross-Origin-Resource-Policy" ] /\
    passCount r = 6 /\ failCount r = 4 /\
    earnedWeight (checks r) = 140 /\ totalWeight (checks r) = 185 /\
    score r = 76 /\ spec_score (checks r) = 76 /\
    gradeFromScore (score r) = "B".
Proof.
  exists (pageResult "https://a.test/" examplePage).
  split; [reflexivity|].
  repeat (split; [vm_compute; reflexivity|]). vm_compute; reflexivity.
Qed.

(** ** Strings *)

Section Strings.

Implicit Types (s sub pre post val ds : string) (c : ascii).

Lemma append_nil_r s : s ++ "" = s.
Proof. induction s; simpl; congruence. Qed.

Lemma append_assoc s1 s2 s3 : (s1 ++ s2) ++ s3 = s1 ++ (s2 ++ s3).
Proof. induction s1; simpl; congruence. Qed.

Lemma append_length s1 s2 :
  String.length (s1 ++ s2) = (String.length s1 + String.length s2)%nat.
Proof. induction s1; simpl; congruence. Qed.

Lemma prefix_iff sub s :
  String.prefix sub s = true <-> exists post, s = sub ++ post.
Proof.
  revert s. induction sub as [|a sub IH]; intros [|b s]; simpl.
  - split; eauto.
  - split; eauto.
  - split; [discriminate | intros [? [=]]].
  - destruct (ascii_dec a b) as [->|Hne].
    + rewrite IH. split; intros [post E]; exists post; congruence.
    + split; [discriminate | intros [post [= ? _]]; congruence].
Qed.

Lemma includes_iff s sub : JS.includes s sub = true <-> occursIn sub s.
Proof.
  unfold occursIn. induction s as [|c s IH]; cbn [JS.includes].
  - destruct (String.prefix sub "") eqn:P.
    + split; [intros _|reflexivity].
      apply prefix_iff in P. destruct P as [post E]. now exists "", post.
    + split; [discriminate|]. intros (pre & post & E).
      destruct pre; [|discriminate]. simpl in E.
      assert (String.prefix sub "" = true) by (apply prefix_iff; eauto).
      congruence.
  - destruct (String.prefix sub (String c s)) eqn:P.
    + split; [intros _|reflexivity].
      apply prefix_iff in P. destruct P as [post E]. now exists "", post.
    + rewrite IH. split.
      * intros (pre & post & ->). now exists (String c pre), post.
      * intros (pre & post & E). destruct pre as [|c' pre]; simpl in E.
        -- assert (String.prefix sub (String c s) = true)
             by (apply prefix_iff; eauto).
           congruence.
        -- injection E as _ ->. eauto.
Qed.

Lemma slice0_all s n : (String.length s <= n)%nat -> JS.slice0 s n = s.
Proof.
  unfold JS.slice0. revert n. induction s as [|c s IH]; intros [|n] H;
    simpl in *; try reflexivity; try lia.
  f_equal. apply IH. lia.
Qed.

Lemma slice0_split s n :
  (n <= String.length s)%nat ->
  exists post, s = JS.slice0 s n ++ post /\
               String.length (JS.slice0 s n) = n /\
               String.length post = (String.length s - n)%nat.
Proof.
  unfold JS.slice0. revert n. induction s as [|c s IH]; intros [|n] H;
    simpl in *; try lia.
  - exists "". auto.
  - exists (String c s). auto.
  - destruct (IH n) as (post & E & L & L'); [lia|].
    exists post. repeat split; [congruence | lia | assumption].
Qed.

Lemma excerpt_short val :
  (String.length val <= 80)%nat -> excerpt val = val.
Proof.
  intros H. unfold excerpt. rewrite slice0_all by assumption.
  destruct (Nat.ltb_spec 80 (String.length val)); [lia|].
  apply append_nil_r.
Qed.

Lemma excerpt_long val :
  (80 < String.length val)%nat ->
  exists pre post,
    val = pre ++ post /\ String.length pre = 80%nat /\ post <> "" /\
    excerpt val = pre ++ "...".
Proof.
  intros H. unfold excerpt.
  destruct (slice0_split val 80) as (post & E & L & L'); [lia|].
  exists (JS.slice0 val 80), post. repeat split; try assumption.
  - intros ->. simpl in L'. lia.
  - destruct (Nat.ltb_spec 80 (String.length val)); [reflexivity | lia].
Qed.

(** *** The pattern max-age=<digits> *)

Lemma takeDigits_split s :
  exists post,
    s = JS.takeDigits s ++ post /\
    allDigits (JS.takeDigits s) = true /\ startsWithDigit post = false.
Proof.
  induction s as [|c s (post & E & D & P)]; simpl.
  - exists "". auto.
  - destruct (JS.isDigit c) eqn:Hc; simpl.
    + exists post. rewrite Hc, D. repeat split; [congruence | assumption].
    + exists (String c s). simpl. auto.
Qed.

Lemma takeDigits_run ds post :
  allDigits ds = true -> startsWithDigit post = false ->
  JS.takeDigits (ds ++ post) = ds.
Proof.
  intros D P. induction ds as [|c ds IH]; simpl in *.
  - destruct post as [|c post]; simpl in *; [reflexivity | now rewrite P].
  - apply andb_true_iff in D as [-> D]. now rewrite IH.
Qed.

Lemma matchMaxAgeHere_iff s ds :
  JS.matchMaxAgeHere s = Some ds <-> capturesAt s "" ds.
Proof.
  unfold JS.matchMaxAgeHere, capturesAt. split.
  - destruct (String.prefix "max-age=" s) eqn:P; [|discriminate].
    apply prefix_iff in P. destruct P as [rest ->]. simpl.
    destruct (takeDigits_split rest) as (post & E & D & S).
    destruct (JS.takeDigits rest) as [|c ds'] eqn:T; [discriminate|].
    intros [= <-]. exists post. repeat split; try assumption.
    + simpl in *. congruence.
    + discriminate.
  - intros (post & -> & Hne & D & S). simpl.
    rewrite (takeDigits_run ds post D S).
    destruct ds; [contradiction | reflexivity].
Qed.

Lemma capturesAt_cons c s pre ds :
  capturesAt (String c s) (String c pre) ds <-> capturesAt s pre ds.
Proof.
  unfold capturesAt. split; intros (post & E & H); exists post;
    (split; [|exact H]); simpl in *; congruence.
Qed.

(** [matchMaxAge] returns the capture at the leftmost position where the
    pattern matches. *)
Lemma matchMaxAge_Some s ds :
  JS.matchMaxAge s = Some ds ->
  exists pre,
    capturesAt s pre ds /\
    forall pre' ds', capturesAt s pre' ds' ->
                     (String.length pre <= String.length pre')%nat.
Proof.
  revert ds. induction s as [|c s IH]; intros ds; cbn [JS.matchMaxAge].
  - discriminate.
  - destruct (JS.matchMaxAgeHere (String c s)) eqn:M.
    + intros [= ->]. exists "". split; [now apply matchMaxAgeHere_iff|].
      intros; simpl; lia.
    + intros H. destruct (IH ds H) as (pre & C & Min).
      exists (String c pre). split; [now apply capturesAt_cons|].
      intros pre' ds' C'. destruct pre' as [|c' pre'].
      * apply matchMaxAgeHere_iff in C'. congruence.
      * assert (c' = c) as ->.
        { destruct C' as (post & E & _). simpl in E. congruence. }
        apply capturesAt_cons in C'. simpl. specialize (Min _ _ C'). lia.
Qed.

Lemma matchMaxAge_None s :
  JS.matchMaxAge s = None -> forall pre ds, ~ capturesAt s pre ds.
Proof.
  induction s as [|c s IH]; cbn [JS.matchMaxAge].
  - intros _ pre ds C. destruct pre as [|c' pre].
    + apply matchMaxAgeHere_iff in C. discriminate.
    + destruct C as (post & E & _). discriminate.
  - destruct (JS.matchMaxAgeHere (String c s)) eqn:M; [discriminate|].
    intros H pre ds C. destruct pre as [|c' pre].
    + apply matchMaxAgeHere_iff in C. congruence.
    + assert (c' = c) as ->.
      { destruct C as (post & E & _). simpl in E. congruence. }
      apply capturesAt_cons in C. exact (IH H _ _ C).
Qed.

Lemma maxAgeOf_spec val : maxAgeIs val (maxAgeOf val).
Proof.
  unfold maxAgeIs, maxAgeOf. destruct (JS.matchMaxAge val) as [ds|] eqn:M.
  - left. destruct (matchMaxAge_Some val ds M) as (pre & C & Min).
    exists pre, ds. repeat split; try assumption.
    destruct ds; [|reflexivity]. now destruct C as (? & _ & ? & _).
  - right. split; [now apply matchMaxAge_None | reflexivity].
Qed.

End Strings.

(** ** The checks on Strict-Transport-Security, Content-Security-Policy
    and X-Content-Type-Options *)

Lemma findHeader_None_iff h name :
  findHeader h name = None <-> headerAbsent h name.
Proof. apply findHeader_loop_None. Qed.

(** C6, as the specification states it, does not hold: the check does
    not fail exactly when the header is absent.  A map that holds the
    header with an empty value has the header present, and the check
    fails on it. *)
Lemma check_HSTS_fails_on_empty_value :
  let h := [("strict-transport-security", "")] in
  findHeader h "strict-transport-security" = Some "" /\
  ~ headerAbsent h "strict-transport-security" /\
  pass (check_HSTS h "") = false.
Proof.
  intros h. split; [reflexivity|]. split; [|reflexivity].
  intros A. apply (A "strict-transport-security" ""); [now left | reflexivity].
Qed.

(** C6, amended.  The Strict-Transport-Security check fails exactly when
    the header is absent or its value is empty.  On a non-empty value it
    passes and reports the value; with the numeric max-age (the digits of
    the first match of max-age=<digits>, 0 when there is no match) below
    31536000 it carries the advisory detail, and from 31536000 up it
    carries no detail.  So max-age=3600 passes with the advice and
    max-age=63072000 passes with no detail. *)
Theorem check_HSTS_outcome (h : HeaderMap) (html : string) :
  let found := findHeader h "strict-transport-security" in
  let r := check_HSTS h html in
  (pass r = false <->
   headerAbsent h "strict-transport-security" \/ found = Some "") /\
  (forall val,
      found = Some val -> val <> "" ->
      pass r = true /\ value r = Some val /\
      exists maxAge,
        maxAgeIs val maxAge /\
        (maxAge < 31536000 -> detail r = Some (hstsAdvice maxAge)) /\
        (31536000 <= maxAge -> detail r = None)) /\
  check_HSTS [("strict-transport-security", "max-age=3600")] html
  = mkOutcome true (Some "max-age=3600")
      (Some "max-age=3600 (recommend >= 31536000)") /\
  check_HSTS [("strict-transport-security", "max-age=63072000")] html
  = mkOutcome true (Some "max-age=63072000") None.
Proof.
  intros found r. subst found r.
  rewrite <- findHeader_None_iff. unfold check_HSTS.
  split; [|split; [|split; reflexivity]].
  - destruct (findHeader h "strict-transport-security") as [[|c v]|];
      cbn [pass].
    + split; auto.
    + destruct (_ <? _); cbn [pass];
        (split; [discriminate | intros [|]; discriminate]).
    + split; auto.
  - intros val -> Hne. destruct val as [|c v]; [contradiction|].
    fold (maxAgeOf (String c v)). fold (hstsAdvice (maxAgeOf (String c v))).
    destruct (Z.ltb_spec (maxAgeOf (String c v)) 31536000); cbn;
      (split; [reflexivity|]; split; [reflexivity|]);
      exists (maxAgeOf (String c v));
      (split; [apply maxAgeOf_spec|]); split; intros; (reflexivity || lia).
Qed.

Lemma check_HSTS_outcome_witness :
  let h := [("Strict-Transport-Security", "includeSubDomains; max-age=600")] in
  pass (check_HSTS h "") = true /\
  value (check_HSTS h "") = Some "includeSubDomains; max-age=600".
Proof.
  intros h.
  destruct (proj1 (proj2 (check_HSTS_outcome h ""))
              "includeSubDomains; max-age=600" eq_refl) as (P & V & _).
  - discriminate.
  - split; assumption.
Defined.

(** C7, as the specification states it, does not hold: a map that holds
    the header with an empty value has the header present, and the check
    fails on it. *)
Lemma check_CSP_fails_on_empty_value :
  let h := [("Content-Security-Policy", "")] in
  findHeader h "content-security-policy" = Some "" /\
  ~ headerAbsent h "content-security-policy" /\
  pass (check_CSP h "") = false.
Proof.
  intros h. split; [reflexivity|]. split; [|reflexivity].
  intros A. apply (A "Content-Security-Policy" ""); [now left | reflexivity].
Qed.

(** C7, amended.  The Content-Security-Policy check fails exactly when
    the header is absent or its value is empty.  On a non-empty value it
    passes; the reported value is the raw value when that has at most 80
    characters and its first 80 characters followed by three dots when it
    is longer; the advisory detail is attached exactly when the raw value
    contains unsafe-inline or unsafe-eval, and pass stays true. *)
Theorem check_CSP_outcome (h : HeaderMap) (html : string) :
  let found := findHeader h "content-security-policy" in
  let r := check_CSP h html in
  (pass r = false <->
   headerAbsent h "content-security-policy" \/ found = Some "") /\
  (forall val,
      found = Some val -> val <> "" ->
      pass r = true /\
      ((String.length val <= 80)%nat -> value r = Some val) /\
      ((80 < String.length val)%nat ->
       exists pre post,
         val = pre ++ post /\ String.length pre = 80%nat /\ post <> "" /\
         value r = Some (pre ++ "...")) /\
      (occursIn "unsafe-inline" val \/ occursIn "unsafe-eval" val ->
       detail r = Some cspAdvice) /\
      (~ occursIn "unsafe-inline" val -> ~ occursIn "unsafe-eval" val ->
       detail r = None)).
Proof.
  intros found r. subst found r.
  rewrite <- findHeader_None_iff. unfold check_CSP. split.
  - destruct (findHeader h "content-security-policy") as [[|c v]|];
      cbn [pass]; split; auto; try discriminate.
    intros [|]; discriminate.
  - intros val -> Hne. destruct val as [|c v]; [contradiction|].
    cbn [pass value detail]. set (val := String c v) in *.
    split; [reflexivity|]. split; [|split; [|split]].
    + intros L. now rewrite excerpt_short.
    + intros L. destruct (excerpt_long val L) as (pre & post & E & L1 & N & X).
      exists pre, post. rewrite X. auto.
    + intros O.
      assert (JS.includes val "unsafe-inline"
              || JS.includes val "unsafe-eval" = true) as ->; [|reflexivity].
      apply orb_true_iff. destruct O as [O|O]; [left|right];
        now apply includes_iff.
    + intros N1 N2.
      assert (JS.includes val "unsafe-inline"
              || JS.includes val "unsafe-eval" = false) as ->; [|reflexivity].
      apply orb_false_iff.
      split; apply not_true_is_false; intros I; apply includes_iff in I;
        contradiction.
Qed.

Lemma check_CSP_outcome_witness :
  let h := [("Content-Security-Policy", "script-src 'unsafe-inline'")] in
  pass (check_CSP h "") = true /\
  detail (check_CSP h "") = Some cspAdvice.
Proof.
  intros h.
  destruct (proj2 (check_CSP_outcome h "")
              "script-src 'unsafe-inline'" eq_refl) as (P & _ & _ & D & _).
  - discriminate.
  - split; [exact P|]. apply D. left. now exists "script-src '", "'".
Defined.

(** C8.  The X-Content-Type-Options check fails when the header is
    absent; when the lookup gives a value, it passes if and only if the
    lower-cased value is exactly nosniff, that is, the value is nosniff
    up to the case of its letters, and fails on any other value. *)
Theorem check_XCTO_outcome (h : HeaderMap) (html : string) :
  let found := findHeader h "x-content-type-options" in
  let r := check_XCTO h html in
  (headerAbsent h "x-content-type-options" -> pass r = false) /\
  (forall val,
      found = Some val ->
      (pass r = true <-> JS.toLowerCase val = "nosniff") /\
      (pass r = true <-> caseVariant val "nosniff") /\
      (JS.toLowerCase val <> "nosniff" -> pass r = false)).
Proof.
  intros found r. subst found r. unfold check_XCTO. split.
  - intros A. apply findHeader_None_iff in A. now rewrite A.
  - intros val ->.
    rewrite <- (toLowerCase_caseVariant val "nosniff" eq_refl).
    destruct val as [|c v].
    + cbn. split; [split; discriminate|]. split; [split; discriminate|].
      reflexivity.
    + cbn [pass]. rewrite strictEq_true. split; [reflexivity|].
      split; [reflexivity|]. intros N. now apply strictEq_false.
Qed.

Lemma check_XCTO_outcome_witness :
  pass (check_XCTO [("X-Content-Type-Options", "NoSniff")] "") = true /\
  pass (check_XCTO [("X-Content-Type-Options", "nosniff, x")] "") = false /\
  pass (check_XCTO [("X-Frame-Options", "DENY")] "") = false.
Proof.
  split; [|split].
  - apply (proj1 (proj2 (check_XCTO_outcome
                    [("X-Content-Type-Options", "NoSniff")] "")
             "NoSniff" eq_refl)).
    reflexivity.
  - apply (proj2 (proj2 (proj2 (check_XCTO_outcome
                    [("X-Content-Type-Options", "nosniff, x")] "")
             "nosniff, x" eq_refl))).
    discriminate.
  - apply (proj1 (check_XCTO_outcome [("X-Frame-Options", "DENY")] "")).
    intros k v [[= <- <-]|[]]. discriminate.
Defined.

(** ** Markdown export *)

Section ExportProperties.

Variable new_URL : string -> Completion URL.

Lemma displayPath_normal r :
  displayPath new_URL r
  = Normal (match new_URL (url r) with
            | Normal u => pathname u
            | Throw _ => url r
            end).
Proof. unfold displayPath. now destruct (new_URL (url r)). Qed.

Lemma mdRow_normal r : exists row, mdRow new_URL r = Normal row.
Proof. unfold mdRow. rewrite displayPath_normal. simpl. eauto. Qed.

Lemma mapCompletion_mdRow_normal filtered :
  exists rows, mapCompletion (mdRow new_URL) filtered = Normal rows.
Proof.
  induction filtered as [|r rest [rows IH]]; simpl; [eauto|].
  destruct (mdRow_normal r) as [row ->]. simpl. rewrite IH. simpl. eauto.
Qed.

Lemma mdRow_shown r :
  mdRow new_URL r = Normal (mdRowWith (shownPath new_URL r) r).
Proof. unfold mdRow. rewrite displayPath_normal. reflexivity. Qed.

Lemma mapCompletion_mdRow_shown filtered :
  mapCompletion (mdRow new_URL) filtered
  = Normal (map (fun r => mdRowWith (shownPath new_URL r) r) filtered).
Proof.
  induction filtered as [|r rest IH]; cbn [mapCompletion map];
    [reflexivity|].
  rewrite mdRow_shown, IH. reflexivity.
Qed.

Lemma prefix_bar_false p rest :
  noPipe p = true -> String.prefix "| " (p ++ " | " ++ rest) = false.
Proof.
  destruct p as [|c p]; intros N; [reflexivity|].
  cbn [noPipe] in N. apply andb_true_iff in N as [N _].
  apply negb_true_iff, Ascii.eqb_neq in N.
  change (String c p ++ " | " ++ rest) with (String c (p ++ " | " ++ rest)).
  cbn [String.prefix].
  destruct (ascii_dec "|" c) as [E|_]; [congruence | reflexivity].
Qed.

Lemma beforeSeparator_cell p rest :
  noPipe p = true -> beforeSeparator (p ++ " | " ++ rest) = p.
Proof.
  induction p as [|c p IH]; intros N; [destruct rest; reflexivity|].
  pose proof N as N'. cbn [noPipe] in N'.
  apply andb_true_iff in N' as [_ Np].
  change (String c p ++ " | " ++ rest) with (String c (p ++ " | " ++ rest)).
  cbn [beforeSeparator].
  assert (String.prefix " | " (String c (p ++ " | " ++ rest)) = false) as ->.
  { cbn [String.prefix]. destruct (ascii_dec " " c); [|reflexivity].
    now apply prefix_bar_false. }
  now rewrite (IH Np).
Qed.

Lemma firstCell_mdRowWith column r :
  noPipe column = true -> firstCell (mdRowWith column r) = column.
Proof.
  intros N. unfold firstCell, mdRowWith. cbn [append JS.dropUnits].
  now apply beforeSeparator_cell.
Qed.

End ExportProperties.

(** C9.  Whatever the URL parser does, deriving the display path of a
    page result completes normally: with the pathname of the parsed URL
    when the url parses, with the raw url otherwise; so do the row and
    the whole Markdown export.  The URL column of the row holds that
    path and nothing else: the row is the table row with the pathname
    in its first cell when the url parses and with the raw url when it
    does not, and the export is the header followed by these rows, one
    per page result, in order. *)
Theorem displayPath_never_throws
    (new_URL : string -> Completion URL) (r : PageResult) :
  (exists path, displayPath new_URL r = Normal path) /\
  (forall u, new_URL (url r) = Normal u ->
             displayPath new_URL r = Normal (pathname u)) /\
  (forall e, new_URL (url r) = Throw e ->
             displayPath new_URL r = Normal (url r)) /\
  (exists row, mdRow new_URL r = Normal row) /\
  (forall filtered, exists out, exportMd new_URL filtered = Normal out) /\
  (forall u, new_URL (url r) = Normal u ->
             mdRow new_URL r = Normal (mdRowWith (pathname u) r)) /\
  (forall e, new_URL (url r) = Throw e ->
             mdRow new_URL r = Normal (mdRowWith (url r) r)) /\
  (forall path, displayPath new_URL r = Normal path ->
                noPipe path = true ->
                exists row, mdRow new_URL r = Normal row /\
                            firstCell row = path) /\
  exportMd new_URL [] = Normal None /\
  (forall filtered,
      filtered <> [] ->
      exportMd new_URL filtered
      = Normal (Some (mdHeader
                      ++ String.concat newline
                           (map (fun r' =>
                                   mdRowWith (shownPath new_URL r') r')
                                filtered)))).
Proof.
  split; [rewrite displayPath_normal; eauto|].
  split; [rewrite displayPath_normal; now intros u ->|].
  split; [rewrite displayPath_normal; now intros e ->|].
  split; [apply mdRow_normal|].
  split.
  { intros [|r0 rest]; simpl; [eauto|].
    destruct (mdRow_normal new_URL r0) as [row ->]. simpl.
    destruct (mapCompletion_mdRow_normal new_URL rest) as [rows ->].
    simpl. eauto. }
  split; [intros u E; rewrite mdRow_shown; unfold shownPath; now rewrite E|].
  split; [intros e E; rewrite mdRow_shown; unfold shownPath; now rewrite E|].
  split.
  { intros path D N. rewrite displayPath_normal in D. injection D as D.
    eexists. split; [apply mdRow_shown|].
    unfold shownPath. rewrite D. now apply firstCell_mdRowWith. }
  split; [reflexivity|].
  intros filtered N. destruct filtered as [|r0 rest]; [contradiction|].
  unfold exportMd. rewrite mapCompletion_mdRow_shown.
  cbn [bind]. unfold mdHeader. rewrite !append_assoc. reflexivity.
Qed.

Lemma displayPath_never_throws_witness :
  let a := pageResult "https://a.test/login"
             (Page.mk (Some "https://a.test/login") None None) in
  let b := pageResult "not a url" (Page.mk (Some "not a url") None None) in
  displayPath sampleParser a = Normal "/login" /\
  displayPath sampleParser b = Normal "not a url" /\
  mdRow sampleParser a = Normal (mdRowWith "/login" a) /\
  mdRow sampleParser b = Normal (mdRowWith "not a url" b) /\
  (exists row, mdRow sampleParser a = Normal row /\ firstCell row = "/login").
Proof.
  intros a b.
  pose proof (displayPath_never_throws sampleParser a)
    as (_ & Pa & _ & _ & _ & Ra & _ & Ca & _).
  pose proof (displayPath_never_throws sampleParser b)
    as (_ & _ & Pb & _ & _ & _ & Rb & _).
  split; [exact (Pa (mkURL "/login") eq_refl)|].
  split; [exact (Pb "TypeError: Invalid URL" eq_refl)|].
  split; [exact (Ra (mkURL "/login") eq_refl)|].
  split; [exact (Rb "TypeError: Invalid URL" eq_refl)|].
  exact (Ca "/login" (Pa (mkURL "/login") eq_refl) eq_refl).
Defined.

(* ================================================================== *)
(** * Further properties *)

(** ** What the score of a page can be *)

Section CatalogScores.

Implicit Types (l : list CheckResult) (p : list (Severity * bool)).

Lemma weightedScore_ofProfile l : weightedScore l = scoreOfProfile (profile l).
Proof.
  unfold scoreOfProfile. apply weightedScore_profile.
  now rewrite profile_ofProfile.
Qed.

Lemma profile_table :
  forallb profileOK (map catalogProfile (boolLists 10)) = true.
Proof. vm_compute. reflexivity. Qed.

Lemma profile_row l : map entry_check l = CHECKS -> profileOK (profile l) = true.
Proof.
  intros H. pose proof profile_table as T. rewrite forallb_forall in T.
  apply T. rewrite (profile_catalog l H). apply in_map.
  rewrite <- (passes_length_catalog l H). apply boolLists_complete.
Qed.

Lemma failing_profile l :
  map (fun c => severity (entry_check c)) (filter failed l)
  = failingSeverities (profile l).
Proof.
  unfold failingSeverities, profile, failed.
  induction l as [|c l IH]; simpl; [reflexivity|].
  destruct (pass (entry_result c)); simpl; now rewrite IH.
Qed.

Lemma weightedScore_catalog_spec l :
  map entry_check l = CHECKS -> weightedScore l = spec_score l.
Proof.
  intros H. pose proof (profile_row l H) as R. unfold profileOK in R.
  rewrite !andb_true_iff in R. destruct R as [_ R]. apply Z.eqb_eq in R.
  rewrite weightedScore_ofProfile, R. apply spec_score_profile.
  now rewrite profile_ofProfile.
Qed.

Lemma roundHalfAway_nonneg num den :
  0 <= num -> 0 < den -> roundHalfAway num den = (2 * num + den) / (2 * den).
Proof.
  intros H D. unfold roundHalfAway. rewrite Z.abs_eq by assumption.
  destruct (Z.eq_dec num 0) as [->|N].
  - rewrite Z.div_small by lia. reflexivity.
  - rewrite Z.sgn_pos by lia. apply Z.mul_1_l.
Qed.

Lemma weights_pos s : 0 < weights s.
Proof. destruct s; reflexivity. Qed.

Lemma spec_earnedWeight_mono l l' :
  map entry_check l = map entry_check l' -> passesAtLeast l l' ->
  0 <= spec_earnedWeight l <= spec_earnedWeight l'.
Proof.
  intros E F. revert E. unfold spec_earnedWeight.
  induction F as [|c c' l l' Hc F IH]; intros E; [simpl; lia|].
  cbn [map] in E. injection E as Ec E. specialize (IH E).
  pose proof (weights_pos (severity (entry_check c'))) as W.
  cbn [filter]. destruct (pass (entry_result c)).
  - rewrite (Hc eq_refl). cbn [map fold_right]. rewrite Ec. lia.
  - destruct (pass (entry_result c')); cbn [map fold_right]; lia.
Qed.

Lemma spec_totalWeight_checks l l' :
  map entry_check l = map entry_check l' ->
  spec_totalWeight l = spec_totalWeight l'.
Proof.
  unfold spec_totalWeight. intros E.
  rewrite <- (map_map entry_check (fun c => weights (severity c)) l).
  rewrite <- (map_map entry_check (fun c => weights (severity c)) l').
  now rewrite E.
Qed.

End CatalogScores.

Lemma gradeFromScore_A_iff s : gradeFromScore s = "A" <-> 90 <= s.
Proof.
  unfold gradeFromScore.
  destruct (Z.leb_spec 90 s); [tauto|].
  destruct (70 <=? s); [split; [discriminate | lia]|].
  destruct (50 <=? s); split; try discriminate; lia.
Qed.

Lemma pageResult_head u p :
  exists rest,
    checks (pageResult u p)
    = mkCheckResult (mkCheck "HTTPS" "url" "Site uses HTTPS encryption"
                       critical check_HTTPS)
        (mkOutcome true None (Some "Checked via crawl URL")) :: rest.
Proof. eexists. reflexivity. Qed.

(** X1.  The HTTPS check passes on every page, whatever its url and
    headers: every page result starts with the passing HTTPS check, so
    it counts at least one pass and at most nine failures, and its score
    is at least 16. *)
Theorem results_HTTPS_always_passes
    (data : option (list (option Page.t))) (r : PageResult)
    (H : In r (results data)) :
  (exists c rest,
      checks r = c :: rest /\ name (entry_check c) = "HTTPS" /\
      pass (entry_result c) = true) /\
  1 <= passCount r /\ failCount r <= 9 /\ 16 <= score r.
Proof.
  destruct (results_inv data r H) as (pages & p & u & _ & _ & _ & _ & ->).
  destruct (pageResult_head u p) as [rest E].
  assert (1 <= passCount (pageResult u p)) as P.
  { unfold pageResult in *. cbn [passCount checks] in *. rewrite E.
    cbn [filter entry_result pass List.length]. lia. }
  split; [|split; [exact P|split]].
  - rewrite E. eexists _, rest. repeat split.
  - pose proof (pageResult_counts u p). lia.
  - pose proof (profile_row _ (pageResult_checks u p)) as R.
    unfold profileOK in R. rewrite !andb_true_iff in R.
    destruct R as [[_ R] _].
    change (score (pageResult u p))
      with (weightedScore (checks (pageResult u p))).
    rewrite weightedScore_ofProfile. rewrite E in *.
    cbn [profile map entry_check entry_result severity pass implb] in R.
    cbn [profile map entry_check entry_result severity pass].
    now apply Z.leb_le.
Qed.

Lemma results_HTTPS_always_passes_witness :
  let p := Page.mk (Some "http://plain.test/") None None in
  16 <= score (pageResult "http://plain.test/" p).
Proof.
  intros p.
  apply (results_HTTPS_always_passes (Some [Some p])).
  simpl. left. reflexivity.
Defined.

(** X2.  A page whose headers are missing, or present and empty, passes
    the HTTPS check only: one pass, nine failures, score 16, grade F,
    whatever its url and content. *)
Theorem pageResult_without_headers (u : string) (p : Page.t)
    (H : Page.headers p = None \/ Page.headers p = Some []) :
  let r := pageResult u p in
  namesWhere passed r = ["HTTPS"] /\
  passCount r = 1 /\ failCount r = 9 /\ score r = 16 /\
  gradeFromScore (score r) = "F".
Proof.
  assert (forall html, evaluate [] html = evaluate [] "") as E
    by reflexivity.
  intros r. subst r. unfold pageResult, namesWhere.
  cbn [checks passCount failCount score].
  destruct H as [-> | ->]; rewrite E;
    repeat (split; [vm_compute; reflexivity|]); vm_compute; reflexivity.
Qed.

Lemma pageResult_without_headers_witness :
  score (pageResult "https://a.test/"
           (Page.mk (Some "https://a.test/") (Some []) (Some "<html>")))
  = 16.
Proof.
  apply (pageResult_without_headers "https://a.test/"
           (Page.mk (Some "https://a.test/") (Some []) (Some "<html>"))).
  right. reflexivity.
Defined.

(** X3.  A page result scores 100 exactly when no check fails, and gets
    grade A exactly when no check fails or a single check of medium or
    low severity does; one failing critical or high check, or any two
    failing checks, cost the A. *)
Theorem results_perfect_score_and_grade_A
    (data : option (list (option Page.t))) (r : PageResult)
    (H : In r (results data)) :
  (score r = 100 <-> failCount r = 0) /\
  (gradeFromScore (score r) = "A" <->
   filter failed (checks r) = [] \/
   exists c, filter failed (checks r) = [c] /\
             mediumOrLow (severity (entry_check c)) = true).
Proof.
  destruct (results_inv data r H) as (pages & p & u & _ & _ & _ & _ & ->).
  pose proof (profile_row _ (pageResult_checks u p)) as R.
  unfold profileOK in R. rewrite !andb_true_iff in R.
  destruct R as [[[R1 R2] _] _].
  apply Bool.eqb_prop in R1. apply Bool.eqb_prop in R2.
  unfold atMostOneMinorFailure in R2.
  rewrite <- failing_profile, <- weightedScore_ofProfile in R1.
  rewrite <- failing_profile, <- weightedScore_ofProfile in R2.
  change (weightedScore (checks (pageResult u p)))
    with (score (pageResult u p)) in R1, R2.
  assert (failCount (pageResult u p)
          = Z.of_nat (List.length (filter failed (checks (pageResult u p)))))
    as F by reflexivity.
  rewrite gradeFromScore_A_iff, <- Z.leb_le, R2, <- Z.eqb_eq, R1, F.
  destruct (filter failed (checks (pageResult u p))) as [|c [|c' rest]];
    cbn [map List.length].
  - split; [split; auto | split; auto].
  - split; [split; [discriminate | lia]|].
    split.
    + intros M. right. exists c. auto.
    + intros [[=]|(c0 & [= <-] & M)]. exact M.
  - split; [split; [discriminate | lia]|].
    split; [discriminate|]. intros [[=]|(c0 & [=] & _)].
Qed.

Lemma results_perfect_score_and_grade_A_witness :
  let r := pageResult "https://a.test/" examplePage in
  score r = 100 <-> failCount r = 0.
Proof.
  intros r.
  apply (results_perfect_score_and_grade_A (Some [Some examplePage]) r).
  simpl. left. reflexivity.
Defined.

(** X4.  Over the catalog the score is monotone in the outcomes: a list
    of check results that passes every check another one passes scores
    at least as much. *)
Theorem weightedScore_monotone (l l' : list CheckResult)
    (H : map entry_check l = CHECKS) (H' : map entry_check l' = CHECKS)
    (F : passesAtLeast l l') :
  weightedScore l <= weightedScore l'.
Proof.
  rewrite (weightedScore_catalog_spec l H), (weightedScore_catalog_spec l' H').
  assert (map entry_check l = map entry_check l') as E by congruence.
  unfold spec_score. rewrite <- (spec_totalWeight_checks l l' E).
  pose proof (spec_earnedWeight_mono l l' E F) as M.
  destruct (Z.ltb_spec 0 (spec_totalWeight l)) as [T|T]; [|lia].
  rewrite !roundHalfAway_nonneg by lia.
  apply Z.div_le_mono; lia.
Qed.

Lemma weightedScore_monotone_witness :
  weightedScore (evaluate [] "") <= weightedScore (evaluate exampleHeaders "").
Proof.
  apply weightedScore_monotone; try reflexivity.
  unfold passesAtLeast.
  repeat (constructor; [cbn; intros E; first [reflexivity | discriminate E]|]).
  constructor.
Defined.

(** ** Header maps up to case and order *)

Section HeaderMaps.

Implicit Types (h : HeaderMap) (name lower : string).

Lemma evaluate_ext h h' html html' :
  (forall name, findHeader h name = findHeader h' name) ->
  evaluate h html = evaluate h' html'.
Proof.
  intros E. unfold evaluate, CHECKS. cbn [map check].
  unfold check_HTTPS, check_HSTS, check_CSP, check_XFO, check_XCTO,
    check_Referrer, check_Permissions, check_XSS, check_COOP, check_CORP.
  rewrite !E. reflexivity.
Qed.

Lemma findHeader_loop_recased h h' lower :
  recased h h' -> findHeader_loop lower h = findHeader_loop lower h'.
Proof.
  induction 1 as [|[k v] [k' v'] h h' [K V] _ IH]; [reflexivity|].
  unfold keyMatches in K. cbn [fst snd] in K, V. cbn [findHeader_loop].
  now rewrite K, V, IH.
Qed.

Lemma recased_lowerKeys h : recased h (lowerKeys h).
Proof.
  induction h as [|[k v] h IH]; constructor; [|exact IH].
  split; [apply toLowerCase_idempotent | reflexivity].
Qed.

Lemma findHeader_loop_swap lower (x y : string * string) h :
  JS.toLowerCase (fst x) <> JS.toLowerCase (fst y) ->
  findHeader_loop lower (x :: y :: h) = findHeader_loop lower (y :: x :: h).
Proof.
  destruct x as [kx vx], y as [ky vy]. cbn [fst findHeader_loop]. intros N.
  destruct (JS.strictEq (JS.toLowerCase kx) lower) eqn:X;
    destruct (JS.strictEq (JS.toLowerCase ky) lower) eqn:Y; try reflexivity.
  apply strictEq_true in X, Y. congruence.
Qed.

Lemma findHeader_loop_perm h h' lower :
  Permutation h h' -> distinctIgnoringCase h ->
  findHeader_loop lower h = findHeader_loop lower h'.
Proof.
  unfold distinctIgnoringCase.
  induction 1 as [|[k v] h h' P IH|x y h|h h1 h2 P1 IH1 P2 IH2]; intros D.
  - reflexivity.
  - cbn [findHeader_loop]. cbn [map] in D. inversion D; subst.
    now rewrite IH.
  - symmetry. apply findHeader_loop_swap. cbn [map] in D.
    inversion D as [|? ? N _]; subst. intros E. apply N. left. now rewrite E.
  - rewrite IH1 by assumption. apply IH2.
    eapply Permutation_NoDup; [|exact D]. now apply Permutation_map.
Qed.

End HeaderMaps.

(** X5.  Spelling header names in another case changes nothing: on two
    maps with the same entries in the same order, keys equal up to case,
    every lookup and the whole evaluation agree, whatever the page
    content; so do a lookup under a name spelled in another case, and
    the evaluation of the map with all keys lower-cased. *)
Theorem evaluate_ignores_case (h h' : HeaderMap) (html html' : string)
    (R : recased h h') :
  evaluate h html = evaluate h' html' /\
  (forall name name',
      keyMatches name name' -> findHeader h name = findHeader h' name') /\
  evaluate (lowerKeys h) html = evaluate h html'.
Proof.
  assert (forall h1 h2 name name',
             recased h1 h2 -> keyMatches name name' ->
             findHeader h1 name = findHeader h2 name') as L.
  { intros h1 h2 name name' R' K. unfold findHeader, keyMatches in *.
    rewrite K. now apply findHeader_loop_recased. }
  split; [|split].
  - apply evaluate_ext. intros name. now apply L.
  - intros name name' K. now apply L.
  - apply evaluate_ext. intros name. symmetry.
    apply L; [apply recased_lowerKeys | reflexivity].
Qed.

Lemma evaluate_ignores_case_witness :
  evaluate [("X-FRAME-OPTIONS", "DENY"); ("Referrer-Policy", "origin")] ""
  = evaluate [("x-frame-options", "DENY"); ("referrer-policy", "origin")]
      "<html>".
Proof.
  apply (evaluate_ignores_case
           [("X-FRAME-OPTIONS", "DENY"); ("Referrer-Policy", "origin")]
           [("x-frame-options", "DENY"); ("referrer-policy", "origin")]).
  repeat constructor.
Defined.

(** X6.  When no two keys of a header map are equal up to case, the
    order of its entries does not matter: every lookup and the whole
    evaluation agree on any reordering of the map. *)
Theorem evaluate_ignores_order (h h' : HeaderMap) (html : string)
    (P : Permutation h h') (D : distinctIgnoringCase h) :
  (forall name, findHeader h name = findHeader h' name) /\
  evaluate h html = evaluate h' html.
Proof.
  assert (forall name, findHeader h name = findHeader h' name) as E.
  { intros name. unfold findHeader. now apply findHeader_loop_perm. }
  split; [exact E | now apply evaluate_ext].
Qed.

Lemma evaluate_ignores_order_witness :
  evaluate [("x-frame-options", "DENY"); ("referrer-policy", "origin")] ""
  = evaluate [("referrer-policy", "origin"); ("x-frame-options", "DENY")] "".
Proof.
  apply (evaluate_ignores_order
           [("x-frame-options", "DENY"); ("referrer-policy", "origin")]
           [("referrer-policy", "origin"); ("x-frame-options", "DENY")]).
  - apply perm_swap.
  - unfold distinctIgnoringCase. cbn.
    constructor; [intros [E|[]]; discriminate E|].
    constructor; [intros []|constructor].
Defined.

(** ** The other checks of the catalog *)

Lemma missingOrEmpty_dec (v : option string) :
  missingOrEmpty v \/ exists c s, v = Some (String c s).
Proof.
  unfold missingOrEmpty. destruct v as [[|c s]|]; eauto.
Qed.

(** X7.  The Permissions-Policy check reads permissions-policy first and
    falls back to feature-policy when that lookup is missing or empty:
    it fails exactly when both are missing or empty, and otherwise passes
    with the excerpt of the first of the two that is not. *)
Theorem check_Permissions_outcome (h : HeaderMap) (html : string) :
  let pp := findHeader h "permissions-policy" in
  let fp := findHeader h "feature-policy" in
  let r := check_Permissions h html in
  (pass r = false <-> missingOrEmpty pp /\ missingOrEmpty fp) /\
  (forall val,
      pp = Some val -> val <> "" ->
      r = mkOutcome true (Some (excerpt val)) None) /\
  (forall val,
      missingOrEmpty pp -> fp = Some val -> val <> "" ->
      r = mkOutcome true (Some (excerpt val)) None).
Proof.
  intros pp fp r. subst pp fp r. unfold check_Permissions, missingOrEmpty.
  destruct (findHeader h "permissions-policy") as [[|c v]|];
    destruct (findHeader h "feature-policy") as [[|c' v']|];
    cbn [JS.orElse JS.truthy pass];
    (split; [split; [try discriminate; auto
                    | intros [[|] [|]]; (reflexivity || discriminate)]|]);
    (split; [intros val [= <-] N; (reflexivity || contradiction)
            | intros val [|] E N; try discriminate;
              injection E as <-; (reflexivity || contradiction)]).
Qed.

Lemma check_Permissions_outcome_witness :
  check_Permissions
    [("Permissions-Policy", ""); ("Feature-Policy", "camera 'none'")] ""
  = mkOutcome true (Some "camera 'none'") None.
Proof.
  apply (proj2 (proj2 (check_Permissions_outcome
           [("Permissions-Policy", ""); ("Feature-Policy", "camera 'none'")]
           "")) "camera 'none'").
  - right. reflexivity.
  - reflexivity.
  - discriminate.
Defined.

(** X8.  The checks on X-Frame-Options, Referrer-Policy,
    X-XSS-Protection, Cross-Origin-Opener-Policy and
    Cross-Origin-Resource-Policy look up the header named in their
    [header] field and validate nothing: each fails, reporting no value,
    when the lookup is missing or empty, and passes with the value
    verbatim and no detail on any other value. *)
Theorem presence_checks_outcome (c : SecurityCheck) (h : HeaderMap)
    (html : string) (C : In c CHECKS) (N : In (name c) presenceOnly) :
  let found := findHeader h (header c) in
  let r := check c h html in
  (missingOrEmpty found -> pass r = false /\ value r = None) /\
  (forall val, found = Some val -> val <> "" ->
               r = mkOutcome true (Some val) None).
Proof.
  unfold CHECKS in C. cbn [In] in C.
  repeat (destruct C as [<-|C];
    [cbn [name presenceOnly In] in N; cbn [header check];
     try (exfalso; repeat (destruct N as [N|N]; [discriminate N|]);
          exact N)|]);
    try contradiction;
    clear N; unfold missingOrEmpty;
    unfold check_XFO, check_Referrer, check_XSS, check_COOP, check_CORP;
    match goal with
    | |- context [findHeader h ?n] =>
        destruct (findHeader h n) as [[|a v]|]
    end;
    (split; [intros [|]; (discriminate || (split; reflexivity))
            | intros val [= <-] E; (reflexivity || contradiction)]).
Qed.

Lemma presence_checks_outcome_witness :
  check_XFO [("X-Frame-Options", "ALLOWALL")] ""
  = mkOutcome true (Some "ALLOWALL") None.
Proof.
  apply (proj2 (presence_checks_outcome
           (mkCheck "X-Frame-Options" "x-frame-options"
              "Prevents clickjacking by controlling iframe embedding"
              high check_XFO)
           [("X-Frame-Options", "ALLOWALL")] ""
           (or_intror (or_intror (or_intror (or_introl eq_refl))))
           (or_introl eq_refl)) "ALLOWALL").
  - reflexivity.
  - discriminate.
Defined.

Lemma excerpt_nonempty val : val <> "" -> excerpt val <> "".
Proof. destruct val as [|c v]; [contradiction | discriminate]. Qed.

(** X9.  Every outcome of a catalog check has something to show: a
    value or a non-empty detail.  A reported value is never empty; a
    failing outcome reports a value only in the X-Content-Type-Options
    check (a value other than nosniff, with no detail), and a passing
    outcome reports none only in the HTTPS check. *)
Theorem outcome_shape (c : SecurityCheck) (h : HeaderMap) (html : string)
    (C : In c CHECKS) :
  let o := check c h html in
  (value o = None -> exists d, detail o = Some d /\ d <> "") /\
  (forall v, value o = Some v -> v <> "") /\
  (pass o = false -> value o <> None ->
   name c = "X-Content-Type-Options" /\ detail o = None) /\
  (pass o = true -> value o = None -> name c = "HTTPS").
Proof.
  unfold CHECKS in C. cbn [In] in C.
  repeat (destruct C as [<-|C]; [cbn [name check]|]); try contradiction.
  - unfold check_HTTPS. cbn. repeat split; try discriminate; eauto.
    eexists. split; [reflexivity | discriminate].
  - unfold check_HSTS.
    destruct (findHeader h "strict-transport-security") as [[|a v]|];
      [| destruct (_ <? _) |]; cbn;
      repeat split; try discriminate; try congruence;
      try (eexists; split; [reflexivity | discriminate]);
      intros ? [= <-]; discriminate.
  - unfold check_CSP.
    destruct (findHeader h "content-security-policy") as [[|a v]|]; cbn;
      repeat split; try discriminate; try congruence;
      try (eexists; split; [reflexivity | discriminate]);
      intros ? [= <-]; apply excerpt_nonempty; discriminate.
  - unfold check_XFO.
    destruct (findHeader h "x-frame-options") as [[|a v]|]; cbn;
      repeat split; try discriminate; try congruence;
      try (eexists; split; [reflexivity | discriminate]);
      intros ? [= <-]; discriminate.
  - unfold check_XCTO.
    destruct (findHeader h "x-content-type-options") as [[|a v]|]; cbn;
      repeat split; try discriminate; try congruence;
      try (eexists; split; [reflexivity | discriminate]);
      intros ? [= <-]; discriminate.
  - unfold check_Referrer.
    destruct (findHeader h "referrer-policy") as [[|a v]|]; cbn;
      repeat split; try discriminate; try congruence;
      try (eexists; split; [reflexivity | discriminate]);
      intros ? [= <-]; discriminate.
  - unfold check_Permissions.
    destruct (JS.orElse (findHeader h "permissions-policy")
                        (findHeader h "feature-policy")) as [[|a v]|]; cbn;
      repeat split; try discriminate; try congruence;
      try (eexists; split; [reflexivity | discriminate]);
      intros ? [= <-]; apply excerpt_nonempty; discriminate.
  - unfold check_XSS.
    destruct (findHeader h "x-xss-protection") as [[|a v]|]; cbn;
      repeat split; try discriminate; try congruence;
      try (eexists; split; [reflexivity | discriminate]);
      intros ? [= <-]; discriminate.
  - unfold check_COOP.
    destruct (findHeader h "cross-origin-opener-policy") as [[|a v]|]; cbn;
      repeat split; try discriminate; try congruence;
      try (eexists; split; [reflexivity | discriminate]);
      intros ? [= <-]; discriminate.
  - unfold check_CORP.
    destruct (findHeader h "cross-origin-resource-policy") as [[|a v]|]; cbn;
      repeat split; try discriminate; try congruence;
      try (eexists; split; [reflexivity | discriminate]);
      intros ? [= <-]; discriminate.
Qed.

Lemma outcome_shape_witness :
  detail (check_XCTO [("X-Content-Type-Options", "sniff")] "") = None.
Proof.
  refine (proj2 (proj1 (proj2 (proj2 (outcome_shape
           (mkCheck "X-Content-Type-Options" "x-content-type-options"
              "Prevents MIME type sniffing" medium check_XCTO)
           [("X-Content-Type-Options", "sniff")] ""
           (or_intror (or_intror (or_intror (or_intror
              (or_introl eq_refl)))))))) _ _)).
  - reflexivity.
  - discriminate.
Defined.

(** X10.  The excerpt reported by the Content-Security-Policy and
    Permissions-Policy checks has the length of the raw value up to 80
    characters and 83 characters beyond, so it never exceeds 83; a raw
    value of 81 or 82 characters is reported longer than it is. *)
Theorem excerpt_length (val : string) :
  String.length (excerpt val)
  = (if (String.length val <=? 80)%nat then String.length val else 83%nat) /\
  (String.length (excerpt val) <= 83)%nat /\
  ((80 < String.length val < 83)%nat ->
   (String.length val < String.length (excerpt val))%nat).
Proof.
  destruct (Nat.leb_spec (String.length val) 80) as [L|L].
  - rewrite (excerpt_short val L). repeat split; lia.
  - destruct (excerpt_long val L) as (pre & post & _ & P & _ & ->).
    rewrite append_length, P. cbn [String.length]. repeat split; lia.
Qed.

Lemma excerpt_length_witness :
  let val := "default-src 'self'; script-src 'self' https://cdn.a.test; img-src *; frame-src *;" in
  (String.length val < String.length (excerpt val))%nat.
Proof.
  intros val. apply (proj2 (proj2 (excerpt_length val))).
  cbn. lia.
Defined.

(** X11.  A non-empty Strict-Transport-Security value in which the
    pattern max-age=<digits> does not match (the directive is missing,
    spelled in another case, or not followed by a digit) passes with the
    advice that reads max-age=0. *)
Theorem check_HSTS_without_max_age (h : HeaderMap) (html val : string)
    (F : findHeader h "strict-transport-security" = Some val)
    (N : val <> "")
    (M : forall pre ds, ~ capturesAt val pre ds) :
  check_HSTS h html
  = mkOutcome true (Some val) (Some "max-age=0 (recommend >= 31536000)").
Proof.
  unfold check_HSTS. rewrite F. destruct val as [|c v]; [contradiction|].
  destruct (JS.matchMaxAge (String c v)) as [ds|] eqn:E; [|reflexivity].
  destruct (matchMaxAge_Some _ _ E) as (pre & C & _).
  exfalso. exact (M pre ds C).
Qed.

Lemma check_HSTS_without_max_age_witness :
  check_HSTS [("Strict-Transport-Security", "Max-Age=31536000")] ""
  = mkOutcome true (Some "Max-Age=31536000")
      (Some "max-age=0 (recommend >= 31536000)").
Proof.
  apply (check_HSTS_without_max_age
           [("Strict-Transport-Security", "Max-Age=31536000")] ""
           "Max-Age=31536000").
  - reflexivity.
  - discriminate.
  - apply matchMaxAge_None. reflexivity.
Defined.

(** ** The view: filter and sort *)

Section SortProperties.

Context {A : Type}.
Implicit Types (cmp : A -> A -> Z) (f : A -> Z) (l : list A).

Lemma insert_perm cmp x l : Permutation (JSArray.insert cmp x l) (x :: l).
Proof.
  induction l as [|y l IH]; cbn [JSArray.insert]; [reflexivity|].
  destruct (cmp x y <=? 0); [reflexivity|].
  rewrite IH. apply perm_swap.
Qed.

Lemma sort_perm cmp l : Permutation (JSArray.sort cmp l) l.
Proof.
  unfold JSArray.sort. induction l as [|x l IH]; cbn [fold_right];
    [reflexivity|].
  rewrite insert_perm. now constructor.
Qed.

(** An order [le] that the comparator decides. *)
Variable le : A -> A -> Prop.
Hypothesis le_trans : forall a b c, le a b -> le b c -> le a c.

Lemma insert_sorted cmp x l :
  (forall a b, cmp a b <= 0 -> le a b) ->
  (forall a b, 0 < cmp a b -> le b a) ->
  StronglySorted le l -> StronglySorted le (JSArray.insert cmp x l).
Proof.
  intros Hle Hgt. induction 1 as [|y l S IH F]; cbn [JSArray.insert].
  - repeat constructor.
  - destruct (Z.leb_spec (cmp x y) 0) as [C|C].
    + constructor; [now constructor|]. constructor; [now apply Hle|].
      eapply Forall_impl; [|exact F]. intros z. apply le_trans.
      now apply Hle.
    + constructor; [exact IH|].
      eapply Permutation_Forall;
        [symmetry; apply insert_perm|].
      constructor; [now apply Hgt | exact F].
Qed.

Lemma sort_sorted cmp l :
  (forall a b, cmp a b <= 0 -> le a b) ->
  (forall a b, 0 < cmp a b -> le b a) ->
  StronglySorted le (JSArray.sort cmp l).
Proof.
  intros Hle Hgt. unfold JSArray.sort.
  induction l as [|x l IH]; cbn [fold_right]; [constructor|].
  now apply insert_sorted.
Qed.

Lemma insert_stable cmp f x l v :
  (forall a b, 0 < cmp a b -> f a <> f b) ->
  filter (fun a => f a =? v) (JSArray.insert cmp x l)
  = filter (fun a => f a =? v) (x :: l).
Proof.
  intros Hgt. induction l as [|y l IH]; cbn [JSArray.insert]; [reflexivity|].
  destruct (Z.leb_spec (cmp x y) 0) as [C|C]; [reflexivity|].
  specialize (Hgt x y C). cbn [filter] in *. rewrite IH.
  destruct (Z.eqb_spec (f x) v), (Z.eqb_spec (f y) v); congruence.
Qed.

Lemma sort_stable cmp f l v :
  (forall a b, 0 < cmp a b -> f a <> f b) ->
  filter (fun a => f a =? v) (JSArray.sort cmp l)
  = filter (fun a => f a =? v) l.
Proof.
  intros Hgt. unfold JSArray.sort.
  induction l as [|x l IH]; cbn [fold_right]; [reflexivity|].
  rewrite insert_stable by assumption. cbn [filter]. now rewrite IH.
Qed.

End SortProperties.

Section ViewProperties.

Variable localeCompare : string -> string -> Z.

Implicit Types (results : list PageResult) (g : FilterGrade)
  (k : SortKey) (d : SortDir).

Lemma filtered_eq results g k d :
  filtered localeCompare results g k d
  = JSArray.sort (compareResults localeCompare k d) (filter (keptBy g) results).
Proof.
  assert (filter (keptBy grade_all) results = results) as T.
  { induction results as [|r results IH]; [reflexivity|].
    cbn [filter keptBy]. now rewrite IH. }
  unfold filtered. destruct g; [now rewrite T | reflexivity ..].
Qed.

Lemma compareResults_numeric k d f a b :
  numericKey k = Some f ->
  compareResults localeCompare k d a b
  = match d with asc => f a - f b | desc => - (f a - f b) end.
Proof. destruct k, d; intros [= <-]; reflexivity. Qed.

End ViewProperties.

(** X12.  Whatever the sort key, the direction and the string
    comparison of the platform, the rows shown are the page results the
    grade filter keeps, each as often as it occurs: all of them under
    the filter all, and under a grade exactly those whose score has that
    grade. *)
Theorem filtered_keeps_the_grade
    (localeCompare : string -> string -> Z) (results : list PageResult)
    (g : FilterGrade) (k : SortKey) (d : SortDir) :
  Permutation (filtered localeCompare results g k d)
              (filter (keptBy g) results) /\
  (forall r, In r (filtered localeCompare results g k d) <->
             In r results /\
             (g = grade_all \/ gradeFromScore (score r) = filterGradeText g)) /\
  (g = grade_all ->
   List.length (filtered localeCompare results g k d) = List.length results).
Proof.
  rewrite filtered_eq.
  pose proof (sort_perm (compareResults localeCompare k d)
                (filter (keptBy g) results)) as P.
  split; [exact P|split].
  - intros r. split.
    + intros I. apply (Permutation_in _ P), filter_In in I.
      destruct I as [I K]. split; [exact I|].
      destruct g; [now left|..]; right; now apply String.eqb_eq.
    + intros [I K]. apply (Permutation_in _ (Permutation_sym P)), filter_In.
      split; [exact I|].
      destruct K as [->|K]; [reflexivity|].
      destruct g; [reflexivity|..]; now apply String.eqb_eq.
  - intros G. rewrite (Permutation_length P). subst g. clear P.
    f_equal. induction results as [|r results IH]; [reflexivity|].
    cbn [filter keptBy]. now rewrite IH.
Qed.

Lemma filtered_keeps_the_grade_witness :
  let a := pageResult "https://a.test/" examplePage in
  let b := pageResult "https://a.test/b"
             (Page.mk (Some "https://a.test/b") None None) in
  List.length (filtered (fun _ _ => 0) [a; b] grade_all key_score desc)
  = 2%nat.
Proof.
  intros a b.
  apply (proj2 (proj2 (filtered_keeps_the_grade
                         (fun _ _ => 0) [a; b] grade_all key_score desc))).
  reflexivity.
Defined.

(** X13.  Sorted by score, pass count or fail count, the rows are in
    order: no row is followed, at any distance, by one with a smaller
    key when ascending, or with a larger key when descending. *)
Theorem filtered_in_order
    (localeCompare : string -> string -> Z) (results : list PageResult)
    (g : FilterGrade) (k : SortKey) (d : SortDir) (f : PageResult -> Z)
    (K : numericKey k = Some f) :
  StronglySorted (fun a b => inDirection d (f a) (f b))
                 (filtered localeCompare results g k d).
Proof.
  rewrite filtered_eq. apply sort_sorted.
  - intros a b c. destruct d; cbn [inDirection]; lia.
  - intros a b. rewrite (compareResults_numeric localeCompare k d f a b K).
    destruct d; cbn [inDirection]; lia.
  - intros a b. rewrite (compareResults_numeric localeCompare k d f a b K).
    destruct d; cbn [inDirection]; lia.
Qed.

Lemma filtered_in_order_witness :
  let a := pageResult "https://a.test/" examplePage in
  let b := pageResult "https://a.test/b"
             (Page.mk (Some "https://a.test/b") None None) in
  StronglySorted (fun x y => inDirection asc (score x) (score y))
                 (filtered (fun _ _ => 0) [a; b] grade_all key_score asc).
Proof.
  intros a b.
  apply (filtered_in_order (fun _ _ => 0) [a; b] grade_all key_score asc score).
  reflexivity.
Defined.

(** X14.  The sort is stable in both directions: sorted by score, pass
    count or fail count, the rows that share a key value come in the
    order the aggregator produced them, so a descending sort is not the
    reverse of the ascending one where rows tie. *)
Theorem filtered_is_stable
    (localeCompare : string -> string -> Z) (results : list PageResult)
    (g : FilterGrade) (k : SortKey) (d : SortDir) (f : PageResult -> Z)
    (K : numericKey k = Some f) (v : Z) :
  filter (fun r => f r =? v) (filtered localeCompare results g k d)
  = filter (fun r => f r =? v) (filter (keptBy g) results).
Proof.
  rewrite filtered_eq. apply sort_stable.
  intros a b. rewrite (compareResults_numeric localeCompare k d f a b K).
  destruct d; lia.
Qed.

Lemma filtered_is_stable_witness :
  let a := pageResult "https://a.test/a"
             (Page.mk (Some "https://a.test/a") None None) in
  let b := pageResult "https://a.test/b"
             (Page.mk (Some "https://a.test/b") None None) in
  filter (fun r => score r =? 16)
         (filtered (fun _ _ => 0) [a; b] grade_all key_score desc)
  = filter (fun r => score r =? 16) (filter (keptBy grade_all) [a; b]).
Proof.
  intros a b.
  apply (filtered_is_stable (fun _ _ => 0) [a; b] grade_all key_score desc
           score).
  reflexivity.
Defined.

Section SortedLists.

Context {A : Type}.
Variable R : A -> A -> Prop.

Lemma StronglySorted_snoc (l : list A) (x : A) :
  StronglySorted R l -> Forall (fun a => R a x) l ->
  StronglySorted R (l ++ [x])%list.
Proof.
  induction 1 as [|a l S IH F]; intros Fx; cbn [app].
  - repeat constructor.
  - inversion Fx; subst. constructor; [now apply IH|].
    apply Forall_app. split; [exact F | now constructor].
Qed.

Lemma StronglySorted_rev (l : list A) :
  StronglySorted (fun a b => R b a) l -> StronglySorted R (rev l).
Proof.
  induction 1 as [|a l S IH F]; cbn [rev]; [constructor|].
  apply StronglySorted_snoc; [exact IH | now apply Forall_rev].
Qed.

(** Two lists in order with the same elements are equal when the order
    ties no two distinct elements. *)
Lemma sorted_perm_unique (l1 l2 : list A) :
  StronglySorted R l1 -> StronglySorted R l2 -> Permutation l1 l2 ->
  (forall a b, In a l1 -> In b l1 -> R a b -> R b a -> a = b) ->
  l1 = l2.
Proof.
  intros S1. revert l2.
  induction S1 as [|a t1 S1 IH F1]; intros l2 S2 P Anti.
  - apply Permutation_nil in P. now subst.
  - destruct l2 as [|b t2];
      [apply Permutation_sym, Permutation_nil in P; discriminate|].
    inversion S2 as [|? ? S2' F2]; subst.
    assert (a = b) as ->.
    { assert (In a (b :: t2)) as Ia
        by (apply (Permutation_in _ P); now left).
      assert (In b (a :: t1)) as Ib
        by (apply (Permutation_in _ (Permutation_sym P)); now left).
      destruct Ia as [->|Ia]; [reflexivity|].
      destruct Ib as [->|Ib]; [reflexivity|].
      rewrite Forall_forall in F1, F2.
      apply Anti; [now left | now right | now apply F1 | now apply F2]. }
    f_equal. apply IH; [exact S2' | now apply Permutation_cons_inv in P|].
    intros x y Ix Iy. apply Anti; now right.
Qed.

End SortedLists.

Lemma NoDup_map_injective {A B : Type} (f : A -> B) (l : list A) :
  NoDup (map f l) ->
  forall a b, In a l -> In b l -> f a = f b -> a = b.
Proof.
  induction l as [|x l IH]; intros D a b Ia Ib E; [contradiction|].
  cbn [map] in D. inversion D as [|? ? N D']; subst.
  destruct Ia as [->|Ia], Ib as [->|Ib]; try reflexivity.
  - exfalso. apply N. rewrite E. now apply in_map.
  - exfalso. apply N. rewrite <- E. now apply in_map.
  - now apply IH.
Qed.

Lemma filtered_sorted
    (localeCompare : string -> string -> Z) (results : list PageResult)
    (g : FilterGrade) (k : SortKey) (d : SortDir) (f : PageResult -> Z) :
  numericKey k = Some f ->
  StronglySorted (fun a b => inDirection d (f a) (f b))
                 (filtered localeCompare results g k d).
Proof.
  intros K. rewrite filtered_eq. apply sort_sorted.
  - intros a b c. destruct d; cbn [inDirection]; lia.
  - intros a b. rewrite (compareResults_numeric localeCompare k d f a b K).
    destruct d; cbn [inDirection]; lia.
  - intros a b. rewrite (compareResults_numeric localeCompare k d f a b K).
    destruct d; cbn [inDirection]; lia.
Qed.

(** X15.  When no two of the rows kept by the filter share the key
    value, sorting them by score, pass count or fail count in descending
    order gives the reverse of the ascending order. *)
Theorem filtered_desc_is_reverse
    (localeCompare : string -> string -> Z) (results : list PageResult)
    (g : FilterGrade) (k : SortKey) (f : PageResult -> Z)
    (K : numericKey k = Some f)
    (D : NoDup (map f (filter (keptBy g) results))) :
  filtered localeCompare results g k desc
  = rev (filtered localeCompare results g k asc).
Proof.
  pose proof (sort_perm (compareResults localeCompare k desc)
                (filter (keptBy g) results)) as Pd.
  pose proof (sort_perm (compareResults localeCompare k asc)
                (filter (keptBy g) results)) as Pa.
  rewrite <- !filtered_eq in Pd, Pa.
  apply (sorted_perm_unique (fun a b => inDirection desc (f a) (f b))).
  - now apply filtered_sorted.
  - apply StronglySorted_rev.
    apply (filtered_sorted localeCompare results g k asc f K).
  - rewrite Pd, <- Permutation_rev. now symmetry.
  - intros a b Ia Ib Rab Rba. cbn [inDirection] in Rab, Rba.
    apply (NoDup_map_injective f _ D).
    + now apply (Permutation_in _ Pd).
    + now apply (Permutation_in _ Pd).
    + lia.
Qed.

Lemma filtered_desc_is_reverse_witness :
  let a := pageResult "https://a.test/" examplePage in
  let b := pageResult "https://a.test/b"
             (Page.mk (Some "https://a.test/b") None None) in
  filtered (fun _ _ => 0) [a; b] grade_all key_score desc
  = rev (filtered (fun _ _ => 0) [a; b] grade_all key_score asc).
Proof.
  intros a b.
  apply (filtered_desc_is_reverse (fun _ _ => 0) [a; b] grade_all key_score
           score eq_refl).
  cbn [keptBy filter map].
  change (score a) with 76. change (score b) with 16.
  constructor; [intros [E|[]]; discriminate E|].
  constructor; [intros []|constructor].
Defined.

(** ** Summary figures *)

Lemma gradeFromScore_cases s :
  gradeFromScore s = "A" \/ gradeFromScore s = "B" \/
  gradeFromScore s = "C" \/ gradeFromScore s = "F".
Proof.
  unfold gradeFromScore.
  destruct (90 <=? s); [auto|]. destruct (70 <=? s); [auto|].
  destruct (50 <=? s); auto.
Qed.

Lemma fold_bump (results : list PageResult) (m : GradeCounts) :
  let n g := Z.of_nat (List.length (filter (keptBy g) results)) in
  fold_left (fun map r => bump map (gradeFromScore (score r))) results m
  = mkCounts (count_A m + n grade_A) (count_B m + n grade_B)
             (count_C m + n grade_C) (count_F m + n grade_F).
Proof.
  cbv zeta. revert m. induction results as [|r results IH]; intros m.
  - destruct m. cbn. f_equal; lia.
  - cbn [fold_left filter keptBy filterGradeText]. rewrite IH.
    destruct (gradeFromScore_cases (score r)) as [E|[E|[E|E]]]; rewrite E;
      cbn [bump JS.strictEq String.eqb Ascii.eqb Bool.eqb
           count_A count_B count_C count_F List.length];
      f_equal; lia.
Qed.

Lemma keptBy_partition (results : list PageResult) :
  (List.length (filter (keptBy grade_A) results)
   + List.length (filter (keptBy grade_B) results)
   + List.length (filter (keptBy grade_C) results)
   + List.length (filter (keptBy grade_F) results))%nat
  = List.length results.
Proof.
  induction results as [|r results IH]; [reflexivity|].
  cbn [filter keptBy filterGradeText].
  destruct (gradeFromScore_cases (score r)) as [E|[E|[E|E]]]; rewrite E;
    cbn [String.eqb Ascii.eqb Bool.eqb List.length]; lia.
Qed.

(** X16.  The grade histogram counts every page result once: its four
    counts add up to the number of results, and the count of a grade is
    the number of rows shown when the filter of that grade is selected,
    under any sort. *)
Theorem gradeBreakdown_counts
    (localeCompare : string -> string -> Z) (results : list PageResult) :
  let m := gradeBreakdown results in
  count_A m + count_B m + count_C m + count_F m
  = Z.of_nat (List.length results) /\
  (forall g k d,
      g <> grade_all ->
      countOf m g
      = Some (Z.of_nat (List.length (filtered localeCompare results g k d)))).
Proof.
  cbv zeta. unfold gradeBreakdown. rewrite fold_bump.
  cbn [count_A count_B count_C count_F]. split.
  - rewrite <- (keptBy_partition results). lia.
  - intros g k d G. rewrite filtered_eq.
    rewrite (Permutation_length (sort_perm _ _)).
    destruct g; [contradiction|..]; cbn [countOf count_A count_B count_C
      count_F]; f_equal; lia.
Qed.

Lemma gradeBreakdown_counts_witness :
  let a := pageResult "https://a.test/" examplePage in
  countOf (gradeBreakdown [a]) grade_B
  = Some (Z.of_nat (List.length
            (filtered (fun _ _ => 0) [a] grade_B key_url asc))).
Proof.
  intros a.
  apply (proj2 (gradeBreakdown_counts (fun _ _ => 0) [a])).
  discriminate.
Defined.

(** ** The state of the view *)

(** X17.  Clicking a column header makes it the sort column.  On the
    active column it flips the direction (ascending becomes descending
    and descending ascending, so the direction is never the one before),
    so a second click restores the state and a third equals the first;
    on another column it starts ascending for the score and descending
    for url, pass and fail. *)
Theorem toggleSort_round_trip (state : SortKey * SortDir) (key : SortKey) :
  fst (toggleSort state key) = key /\
  (fst state = key -> toggleSort (toggleSort state key) key = state) /\
  toggleSort (toggleSort (toggleSort state key) key) key
  = toggleSort state key /\
  (fst state <> key ->
   snd (toggleSort state key)
   = match key with key_score => asc | _ => desc end) /\
  (fst state = key ->
   toggleSort state key
   = (key, match snd state with asc => desc | desc => asc end)) /\
  (fst state = key -> snd (toggleSort state key) <> snd state) /\
  (fst state <> key ->
   toggleSort state key
   = (key, match key with key_score => asc | _ => desc end)).
Proof.
  destruct state as [k d].
  destruct k, key, d; cbn; repeat split; try reflexivity;
    intros E; try reflexivity; try discriminate; contradiction.
Qed.

Lemma toggleSort_round_trip_witness :
  toggleSort (toggleSort (key_score, asc) key_score) key_score
  = (key_score, asc) /\
  toggleSort (key_pass, desc) key_pass = (key_pass, asc) /\
  toggleSort (key_pass, desc) key_url = (key_url, desc).
Proof.
  split; [|split].
  - apply (proj1 (proj2 (toggleSort_round_trip (key_score, asc) key_score))).
    reflexivity.
  - apply (proj1 (proj2 (proj2 (proj2 (proj2
             (toggleSort_round_trip (key_pass, desc) key_pass)))))).
    reflexivity.
  - apply (proj2 (proj2 (proj2 (proj2 (proj2 (proj2
             (toggleSort_round_trip (key_pass, desc) key_url))))))).
    discriminate.
Defined.

Section ExpandedRows.

Implicit Types (s prev : JSSet.t) (x y idx : Z).

Lemma has_add s x y : JSSet.has (JSSet.add s x) y = (y =? x) || JSSet.has s y.
Proof.
  unfold JSSet.add. destruct (JSSet.has s x) eqn:H.
  - destruct (Z.eqb_spec y x) as [->|]; [now rewrite H | reflexivity].
  - unfold JSSet.has. rewrite existsb_app. cbn [existsb].
    rewrite orb_false_r. apply orb_comm.
Qed.

Lemma has_delete s x y :
  JSSet.has (JSSet.delete s x) y = negb (y =? x) && JSSet.has s y.
Proof.
  unfold JSSet.has, JSSet.delete. induction s as [|z s IH]; cbn [filter existsb].
  - now rewrite andb_false_r.
  - destruct (Z.eqb_spec x z) as [->|N]; cbn [negb existsb]; rewrite IH.
    + destruct (Z.eqb_spec y z); cbn; [reflexivity|]. reflexivity.
    + destruct (Z.eqb_spec y z) as [->|]; cbn; [|reflexivity].
      destruct (Z.eqb_spec z x); [congruence | reflexivity].
Qed.

Lemma has_In s x : JSSet.has s x = true <-> In x s.
Proof.
  unfold JSSet.has. rewrite existsb_exists. split.
  - intros (y & I & E). apply Z.eqb_eq in E. now subst.
  - intros I. exists x. split; [exact I | apply Z.eqb_refl].
Qed.

End ExpandedRows.

(** X18.  Clicking a row flips whether its index is expanded and leaves
    every other index as it was, so a second click on the row restores
    what is expanded; the set keeps each index once. *)
Theorem toggleExpand_flips (prev : JSSet.t) (idx : Z) :
  (forall j,
      JSSet.has (toggleExpand prev idx) j
      = if j =? idx then negb (JSSet.has prev idx) else JSSet.has prev j) /\
  (forall j,
      JSSet.has (toggleExpand (toggleExpand prev idx) idx) j
      = JSSet.has prev j) /\
  (NoDup prev -> NoDup (toggleExpand prev idx)).
Proof.
  assert (forall s j,
             JSSet.has (toggleExpand s idx) j
             = if j =? idx then negb (JSSet.has s idx) else JSSet.has s j)
    as F.
  { intros s j. unfold toggleExpand.
    destruct (JSSet.has s idx) eqn:H.
    - rewrite has_delete. destruct (Z.eqb_spec j idx); reflexivity.
    - rewrite has_add.
      destruct (Z.eqb_spec j idx) as [->|]; [now rewrite H | reflexivity]. }
  split; [apply F|split].
  - intros j. rewrite !F, Z.eqb_refl.
    destruct (Z.eqb_spec j idx) as [->|]; [apply negb_involutive|reflexivity].
  - intros D. unfold toggleExpand. destruct (JSSet.has prev idx) eqn:H.
    + now apply NoDup_filter.
    + unfold JSSet.add. rewrite H.
      apply NoDup_app; [exact D | repeat constructor; intros [] |].
      intros x I [<-|[]]. apply has_In in I. congruence.
Qed.

Lemma toggleExpand_flips_witness :
  NoDup (toggleExpand [0; 2] 1).
Proof.
  apply (proj2 (proj2 (toggleExpand_flips [0; 2] 1))).
  repeat (constructor; [cbn; intuition discriminate|]). constructor.
Defined.

(** ** Aggregation, piece by piece *)

(** X19.  Pages are aggregated one by one and in order: the results of
    two batches put end to end are the results of the first followed by
    those of the second, there is at most one result per input element,
    and no input gives no result. *)
Theorem results_of_batches (a b : list (option Page.t)) :
  results (Some (a ++ b)%list) = (results (Some a) ++ results (Some b))%list /\
  (List.length (results (Some a)) <= List.length a)%nat /\
  results None = [] /\ results (Some []) = [].
Proof.
  rewrite !results_flat_map, flat_map_app.
  split; [reflexivity|]. split; [|split; reflexivity].
  induction a as [|page a IH]; cbn [flat_map List.length]; [lia|].
  rewrite length_app.
  assert (List.length (emitted page) <= 1)%nat.
  { unfold emitted, results_step. destruct page as [p|]; [|cbn; lia].
    destruct (Page.url p) as [[|c u]|]; cbn; lia. }
  lia.
Qed.

(** ** CSV export *)

Section Lines.

Implicit Types (s t : string) (rows : list string).

Lemma noNewline_app s t :
  noNewline (s ++ t) = noNewline s && noNewline t.
Proof.
  induction s as [|c s IH]; cbn [append noNewline]; [reflexivity|].
  now rewrite IH, andb_assoc.
Qed.

Lemma splitLines_line s t :
  noNewline s = true -> splitLines (s ++ newline ++ t) = s :: splitLines t.
Proof.
  induction s as [|c s IH]; cbn [append noNewline splitLines]; intros N.
  - reflexivity.
  - apply andb_true_iff in N as [C N]. apply negb_true_iff in C.
    rewrite C. cbn [append] in IH. now rewrite (IH N).
Qed.

Lemma splitLines_last s : noNewline s = true -> splitLines s = [s].
Proof.
  induction s as [|c s IH]; cbn [noNewline splitLines]; intros N;
    [reflexivity|].
  apply andb_true_iff in N as [C N]. apply negb_true_iff in C.
  now rewrite C, (IH N).
Qed.

Lemma splitLines_concat rows :
  rows <> [] -> Forall (fun row => noNewline row = true) rows ->
  splitLines (String.concat newline rows) = rows.
Proof.
  induction rows as [|row rows IH]; intros N F; [contradiction|].
  inversion F as [|? ? Frow Frows]; subst.
  destruct rows as [|row' rows]; cbn [String.concat].
  - now apply splitLines_last.
  - rewrite splitLines_line by assumption. f_equal.
    apply IH; [discriminate | assumption].
Qed.

Lemma noNewline_string_of_uint d : noNewline (NilEmpty.string_of_uint d) = true.
Proof. induction d; cbn; auto. Qed.

Lemma noNewline_numberToString z : noNewline (JS.numberToString z) = true.
Proof.
  unfold JS.numberToString.
  destruct (Z.to_int z); cbn [NilEmpty.string_of_int];
    [|cbn [noNewline]; rewrite andb_true_iff; split; [reflexivity|]];
    apply noNewline_string_of_uint.
Qed.

Lemma noNewline_gradeFromScore z : noNewline (gradeFromScore z) = true.
Proof.
  destruct (gradeFromScore_cases z) as [E|[E|[E|E]]]; rewrite E; reflexivity.
Qed.

Lemma noNewline_csvRow r : noNewline (url r) = true -> noNewline (csvRow r) = true.
Proof.
  intros U. unfold csvRow.
  rewrite !noNewline_app, U, !noNewline_numberToString,
    noNewline_gradeFromScore.
  reflexivity.
Qed.

End Lines.

(** X20.  The CSV export gives nothing for an empty table.  For a
    non-empty one whose urls hold no line break, its lines are the
    header line followed by one line per row, in the order of the
    table. *)
Theorem exportCsv_lines (rows : list PageResult) :
  exportCsv [] = None /\
  (rows <> [] ->
   (forall r, In r rows -> noNewline (url r) = true) ->
   exists content,
     exportCsv rows = Some content /\
     splitLines content = "URL,Score,Grade,Pass,Fail" :: map csvRow rows).
Proof.
  split; [reflexivity|]. intros N U.
  destruct rows as [|r rows]; [contradiction|].
  eexists. split; [reflexivity|].
  rewrite splitLines_line by reflexivity. f_equal.
  apply splitLines_concat; [discriminate|].
  apply Forall_forall. intros row I. apply in_map_iff in I.
  destruct I as (r' & <- & I). now apply noNewline_csvRow, U.
Qed.

Lemma exportCsv_lines_witness :
  let a := pageResult "https://a.test/" examplePage in
  exists content,
    exportCsv [a] = Some content /\
    splitLines content = "URL,Score,Grade,Pass,Fail" :: map csvRow [a].
Proof.
  intros a. apply (proj2 (exportCsv_lines [a])).
  - discriminate.
  - intros r [<-|[]]. reflexivity.
Defined.

(** ** The average score *)

Section Average.

Implicit Types (results : list PageResult) (lo hi : Z).

Lemma fold_sumScores results acc :
  fold_left (fun s r => s + score r) results acc = acc + sumScores results.
Proof.
  unfold sumScores. revert acc.
  induction results as [|r results IH]; intros acc; cbn [fold_left]; [lia|].
  rewrite IH, (IH (0 + score r)). lia.
Qed.

Lemma sumScores_cons r results :
  sumScores (r :: results) = score r + sumScores results.
Proof. unfold sumScores at 1. cbn [fold_left]. now rewrite fold_sumScores. Qed.

Lemma sumScores_bounds results lo hi :
  (forall r, In r results -> lo <= score r <= hi) ->
  Z.of_nat (List.length results) * lo <= sumScores results
  <= Z.of_nat (List.length results) * hi.
Proof.
  induction results as [|r results IH]; intros B; [cbn; lia|].
  rewrite sumScores_cons. cbn [List.length].
  pose proof (B r (or_introl eq_refl)).
  assert (forall r', In r' results -> lo <= score r' <= hi) as B'
    by (intros r' I; apply B; now right).
  specialize (IH B'). lia.
Qed.

(** The table of all sums that 1 to 20 scores between 0 and 100 can
    reach. *)
Lemma avg_table :
  forallb (fun n => forallb (avgRowOK n) (seq 0 (100 * n + 1))) (seq 1 20)
  = true.
Proof. vm_compute. reflexivity. Qed.

Lemma avg_row (n s : nat) :
  (1 <= n <= 20)%nat -> (s <= 100 * n)%nat -> avgRowOK n s = true.
Proof.
  intros Hn Hs. pose proof avg_table as T.
  rewrite forallb_forall in T.
  specialize (T n ltac:(apply in_seq; lia)).
  rewrite forallb_forall in T. apply T, in_seq. lia.
Qed.

End Average.

(** X21.  The average of no result is 0.  For 1 to 20 page results with
    scores between 0 and 100 (as the aggregator produces them), the
    average is the mean of the scores rounded to the nearest integer,
    halves up, and lies between any two bounds the scores lie
    between. *)
Theorem avgScore_rounded_mean (results : list PageResult) :
  avgScore [] = 0 /\
  ((1 <= List.length results <= 20)%nat ->
   (forall r, In r results -> 0 <= score r <= 100) ->
   avgScore results
   = roundHalfAway (sumScores results) (Z.of_nat (List.length results)) /\
   (forall lo hi,
       (forall r, In r results -> lo <= score r <= hi) ->
       lo <= avgScore results <= hi)).
Proof.
  split; [reflexivity|]. intros L B.
  pose proof (sumScores_bounds results 0 100 B) as S.
  set (n := List.length results) in *.
  assert (avgScore results = roundHalfAway (sumScores results) (Z.of_nat n))
    as E.
  { unfold avgScore. fold n.
    destruct (Nat.ltb_spec 0 n) as [_|]; [|lia].
    pose proof (avg_row n (Z.to_nat (sumScores results)) L ltac:(lia)) as R.
    unfold avgRowOK in R. rewrite Z2Nat.id in R by lia.
    now apply Z.eqb_eq in R. }
  split; [exact E|]. intros lo hi B'.
  pose proof (sumScores_bounds results lo hi B') as S'. fold n in S'.
  rewrite E, roundHalfAway_nonneg by lia.
  split.
  - apply Z.div_le_lower_bound; lia.
  - apply Z.lt_succ_r, Z.div_lt_upper_bound; lia.
Qed.

Lemma avgScore_rounded_mean_witness :
  let a := pageResult "https://a.test/" examplePage in
  let b := pageResult "https://a.test/b"
             (Page.mk (Some "https://a.test/b") None None) in
  avgScore [a; b] = roundHalfAway (sumScores [a; b]) 2.
Proof.
  intros a b.
  apply (proj2 (avgScore_rounded_mean [a; b])).
  - cbn. lia.
  - intros r [<-|[<-|[]]]; vm_compute; split; discriminate.
Defined.

(** ** Duplicate headers *)

Lemma findHeader_first_empty (pre rest : HeaderMap) (k name : string) :
  keyMatches name k ->
  (forall k' v', In (k', v') pre -> ~ keyMatches name k') ->
  findHeader (pre ++ (k, "") :: rest)%list name = Some "".
Proof.
  intros K P. unfold findHeader. apply findHeader_loop_Some.
  exists pre, k, rest. repeat split; assumption.
Qed.

(** X22.  When a header occurs more than once, only its first entry
    counts: if the first entry whose key matches the header of a check
    has an empty value, the check fails whatever values later entries
    give.  This holds for every check but HTTPS, which reads no header,
    and Permissions-Policy, which falls back to feature-policy. *)
Theorem empty_first_entry_fails (c : SecurityCheck)
    (pre rest : HeaderMap) (k html : string)
    (C : In c CHECKS)
    (N1 : name c <> "HTTPS") (N2 : name c <> "Permissions-Policy")
    (K : keyMatches (header c) k)
    (P : forall k' v', In (k', v') pre -> ~ keyMatches (header c) k') :
  pass (check c (pre ++ (k, "") :: rest)%list html) = false.
Proof.
  pose proof (findHeader_first_empty pre rest k (header c) K P) as F.
  unfold CHECKS in C. cbn [In] in C.
  repeat (destruct C as [<-|C];
    [cbn [name header check] in *; try contradiction|]);
    try contradiction;
    unfold check_HSTS, check_CSP, check_XFO, check_XCTO, check_Referrer,
      check_XSS, check_COOP, check_CORP;
    rewrite F; reflexivity.
Qed.

Lemma empty_first_entry_fails_witness :
  pass (check_XFO [("Server", "a"); ("X-Frame-Options", "");
                   ("x-frame-options", "DENY")] "")
  = false.
Proof.
  apply (empty_first_entry_fails
           (mkCheck "X-Frame-Options" "x-frame-options"
              "Prevents clickjacking by controlling iframe embedding"
              high check_XFO)
           [("Server", "a")] [("x-frame-options", "DENY")]
           "X-Frame-Options" ""
           (or_intror (or_intror (or_intror (or_introl eq_refl))))).
  - discriminate.
  - discriminate.
  - reflexivity.
  - intros k' v' [[= <- <-]|[]]. discriminate.
Defined.
